(** * The image-recognition command (main.go): ranking, graph building, pipeline

    A shallow embedding of [main.go].  The functions of the program are
    translated one by one; what they call in the Go run time, in package
    [sort] and in the TensorFlow binding is modelled next to them, in modules
    of its own, so that the translated functions read like their source. *)

From Stdlib Require Import ZArith Lia Floats.SpecFloat.
From stdpp Require Import base tactics option list sorting strings gmap.

Local Open Scope string_scope.
Local Open Scope nat_scope.
Local Open Scope list_scope.

(** ** Go run time: panics, float32, slices *)

Module Go.

(** The run-time panics the program can raise. *)
Inductive panic : Type :=
| IndexOutOfRange (i len : nat)         (* a[i] with i >= len(a) *)
| SliceBoundsOutOfRange (hi cap : nat) (* a[:hi] with hi > cap(a) *)
| InterfaceConversion                   (* v.(T) on a value of another type *)
| NilDereference                        (* p.f on a nil pointer p *)
| NilOperation.                         (* session.Run on an Output of a nil operation *)

(** Values of type [error]: the program passes them on and prints them. *)
Inductive error : Type :=
| Err (msg : string)
| ErrAddOperation (op : string) (cause : error). (* Scope.UpdateErr(op, cause) *)

(** A computation that returns or panics. *)
Inductive exec (A : Type) : Type :=
| Ret (a : A)
| Panicked (p : panic).
Global Arguments Ret {A} a.
Global Arguments Panicked {A} p.

Global Instance exec_ret : MRet exec := @Ret.
Global Instance exec_bind : MBind exec := λ A B f m,
  match m with
  | Ret a => f a
  | Panicked p => Panicked p
  end.

Definition returns {A} (m : exec A) : Prop := ∃ a, m = Ret a.

(** A pointer is followed. *)
Definition deref {A} (p : option A) : exec A :=
  match p with
  | Some a => Ret a
  | None => Panicked NilDereference
  end.

(** [a[i]] on a slice whose visible elements are [a]. *)
Definition index {A} (a : list A) (i : nat) : exec A :=
  match a !! i with
  | Some x => Ret x
  | None => Panicked (IndexOutOfRange i (length a))
  end.

(** [float32]: IEEE 754 binary32.  The values are the [spec_float]s that
    are valid for precision 24 and maximal exponent 128; the program only
    compares them. *)
Definition float32 : Type := spec_float.
Definition float32_valid (x : float32) : bool := valid_binary 24 128 x.

Definition f32_gt (x y : float32) : bool := SFltb y x.  (* x > y *)
Definition f32_ge (x y : float32) : bool := SFleb y x.  (* x >= y *)
Definition f32_eq (x y : float32) : bool := SFeqb x y.  (* x == y *)

Definition is_nan (x : float32) : bool :=
  match x with
  | S754_nan => true
  | _ => false
  end.

(** The zero value of a type. *)
Class Zero (A : Type) := zero : A.
Global Instance string_zero : Zero string := "".
Global Instance float32_zero : Zero float32 := S754_zero false.

(** A slice: the visible elements and the capacity of the backing array.
    The array cells between the length and the capacity hold zero values
    (every backing array of the program is allocated by [append]). *)
Record slice (A : Type) : Type := Slice { elems : list A; cap : nat }.
Global Arguments Slice {A} elems cap.
Global Arguments elems {A} s.
Global Arguments cap {A} s.

Definition len {A} (s : slice A) : nat := length (elems s).

(** [var s []A]: the nil slice. *)
Definition nil_slice {A} : slice A := Slice [] 0.

(** The capacity [runtime.growslice] asks for when one element is appended
    to a full slice: the needed length when that exceeds the double, the
    double below 256 elements, a smaller step above.  The run time then
    rounds the allocation up to a size class; the rounding is left out.  It
    leaves the capacities 1, 2, 4, 8 and 16 of a slice of [Label]s as they
    are and can only enlarge the later ones, which the program, reading the
    capacity in [resultLabels[:5]] alone, does not tell apart. *)
Definition nextslicecap (oldCap : nat) : nat :=
  if bool_decide (oldCap + oldCap < oldCap + 1) then oldCap + 1
  else if bool_decide (oldCap < 256) then oldCap + oldCap
  else oldCap + (oldCap + 3 * 256) / 4.

(** [append(s, x)]. *)
Definition append {A} (s : slice A) (x : A) : slice A :=
  if bool_decide (len s < cap s)
  then Slice (elems s ++ [x]) (cap s)
  else Slice (elems s ++ [x]) (nextslicecap (cap s)).

(** The cells of the backing array, from the slice's start to its
    capacity. *)
Definition backing `{Zero A} (s : slice A) : list A :=
  elems s ++ replicate (cap s - len s) zero.

(** [s[:hi]]: the bound is checked against the capacity, not the length. *)
Definition slice_to `{Zero A} (s : slice A) (hi : nat) : exec (slice A) :=
  if bool_decide (hi ≤ cap s)
  then Ret (Slice (take hi (backing s)) (cap s))
  else Panicked (SliceBoundsOutOfRange hi (cap s)).

End Go.

Import Go.

(** ** The result entity *)

(** [type Label struct { Label string; Probability float32 }].  The field
    [Label] is written [Label_], the type having taken the name. *)
Record Label : Type := mkLabel { Label_ : string; Probability : float32 }.

Global Instance Label_zero : Zero Label := mkLabel zero zero.

(** [type Labels []Label], seen as the elements [sort.Sort] works on. *)
Abbreviation Labels := (list Label).

(** ** Package sort: the interface and the library's sort *)

Module GoSort.

(** [sort.Interface].  A method that mutates its receiver returns the new
    receiver. *)
Class Interface (T : Type) : Type := {
  Len : T → nat;
  Less : T → nat → nat → exec bool;
  Swap : T → nat → nat → exec T
}.

Section insertion.
Context {T : Type} `{Interface T}.

(** The inner loop of the library's [insertionSort]:
    [for j := i; j > a && data.Less(j, j-1); j-- { data.Swap(j, j-1) }]. *)
Fixpoint siftDown (data : T) (a j : nat) : exec T :=
  match j with
  | 0 => Ret data
  | S j' =>
      if bool_decide (a < j) then
        lt ← Less data j j';
        if (lt : bool) then data' ← Swap data j j'; siftDown data' a j'
        else Ret data
      else Ret data
  end.

(** The outer loop, [for i := a + 1; i < b; i++], with [n] rounds left. *)
Fixpoint insertionRounds (n : nat) (data : T) (a i : nat) : exec T :=
  match n with
  | 0 => Ret data
  | S n' => data' ← siftDown data a i; insertionRounds n' data' a (S i)
  end.

(** [insertionSort(data, a, b)], the routine the library runs on a short
    range. *)
Definition insertionSort (data : T) (a b : nat) : exec T :=
  insertionRounds (b - (a + 1)) data a (a + 1).

(** [sort.Sort(data)] as the library runs it on a slice of at most 12
    elements, by insertion.  On longer slices the library sorts by another
    algorithm: the statements take [sort.Sort] by its contract, and this
    definition serves on short slices. *)
Definition Sort (data : T) : exec T := insertionSort data 0 (Len data).
End insertion.

End GoSort.

Import GoSort.

(** ** The methods of [Labels] *)

(** The comparison inside [Less]: [x.Probability > y.Probability]. *)
Definition before (x y : Label) : bool := f32_gt (Probability x) (Probability y).

(** [func (a Labels) Len() int { return len(a) }] *)
Definition Labels_Len (a : Labels) : nat := length a.

(** [func (a Labels) Swap(i, j int) { a[i], a[j] = a[j], a[i] }]: the two
    cells are read, the bound of [a[i]] being checked first, then the two
    cells are written. *)
Definition Labels_Swap (a : Labels) (i j : nat) : exec Labels :=
  x ← index a i;
  y ← index a j;
  mret (<[j:=x]> (<[i:=y]> a)).

(** [func (a Labels) Less(i, j int) bool
      { return a[i].Probability > a[j].Probability }] *)
Definition Labels_Less (a : Labels) (i j : nat) : exec bool :=
  x ← index a i;
  y ← index a j;
  mret (before x y).

Global Instance Labels_Interface : Interface Labels :=
  {| Len := Labels_Len; Less := Labels_Less; Swap := Labels_Swap |}.

(** ** The ranker *)

(** The loop of [getTopFiveLabels]:
    [for i, p := range probabilities {
       if i >= len(labels) { break }
       resultLabels = append(resultLabels, Label{Label: labels[i], Probability: p}) }]
    with [i] the index of the head of the remaining probabilities. *)
Fixpoint pairLoop (labels : list string) (i : nat) (probabilities : list float32)
    (resultLabels : slice Label) : exec (slice Label) :=
  match probabilities with
  | [] => Ret resultLabels
  | p :: rest =>
      if bool_decide (length labels ≤ i) then Ret resultLabels
      else
        l ← index labels i;
        pairLoop labels (S i) rest (append resultLabels (mkLabel l p))
  end.

Section Ranker.
(** [sort.Sort] on [Labels]: the library does not fix the algorithm. *)
Variable sortSort : Labels → exec Labels.

(** Lines 118 to 134: the paired list, sorted in place. *)
Definition rankedPairs (labels : list string) (probabilities : list float32)
    : exec (slice Label) :=
  resultLabels ← pairLoop labels 0 probabilities nil_slice;
  sorted ← sortSort (elems resultLabels);
  mret (Slice sorted (cap resultLabels)).

(** [func getTopFiveLabels(labels []string, probabilities []float32) []Label] *)
Definition getTopFiveLabels (labels : list string) (probabilities : list float32)
    : exec (slice Label) :=
  resultLabels ← rankedPairs labels probabilities;
  slice_to resultLabels 5.
End Ranker.

(** ** The TensorFlow binding, as far as the program uses it *)

Module tensorflow.

(** [tensorflow.DataType] *)
Inductive DataType : Type := Float | Int32 | Uint8 | String.

(** The Go values tensors are made from and read back as. *)
Inductive value : Type :=
| OfString (s : string)                   (* string *)
| OfInt32 (n : Z)                         (* int32 *)
| OfInt32s (l : list Z)                   (* []int32 *)
| OfFloat32 (x : float32)                 (* float32 *)
| OfFloat32ss (m : list (list float32))   (* [][]float32 *)
| OfOther (d : DataType) (shape : list Z). (* any other content *)

(** [*tensorflow.Tensor], with its methods [Value], [DataType], [Shape]. *)
Record Tensor : Type := mkTensor { Value : value }.

Definition Tensor_DataType (t : Tensor) : DataType :=
  match Value t with
  | OfString _ => String
  | OfInt32 _ | OfInt32s _ => Int32
  | OfFloat32 _ | OfFloat32ss _ => Float
  | OfOther d _ => d
  end.

Definition Tensor_Shape (t : Tensor) : list Z :=
  match Value t with
  | OfString _ | OfInt32 _ | OfFloat32 _ => []
  | OfInt32s l => [Z.of_nat (length l)]
  | OfFloat32ss m => [Z.of_nat (length m); Z.of_nat (length (default [] (head m)))]
  | OfOther _ shape => shape
  end.

(** [tensorflow.Output{Op, Index}]: the operation is its position in the
    graph, [None] for a nil operation. *)
Record Output : Type := mkOutput { Op : option nat; Index : nat }.

Inductive attr : Type :=
| AttrType (d : DataType)
| AttrInt (n : Z)
| AttrTensor (t : Tensor).

(** [tensorflow.OpSpec] *)
Record OpSpec : Type := mkOpSpec {
  Type_ : string;
  Name : string;
  Input : list Output;
  Attrs : gmap string attr
}.

(** [*tensorflow.Graph]: the operations in the order they were added. *)
Definition Graph : Type := list OpSpec.

(** [*tensorflow.Session] *)
Record Session : Type := mkSession { session_graph : Graph }.

(** What the library decides outside the program: which calls fail, what a
    run computes, what a serialized graph holds and whether its import
    panics. *)
Record Runtime : Type := {
  NewTensor_err : value → option error;
  AddOperation_err : Graph → OpSpec → option error;
  NewSession_err : Graph → option error;
  Session_Run : Graph → list (Output * Tensor) → list Output → error + list Tensor;
  Graph_Import : string → exec (error + Graph)
}.

Section calls.
Variable rt : Runtime.

(** [tensorflow.NewTensor(v)] *)
Definition NewTensor (v : value) : error + Tensor :=
  match NewTensor_err rt v with
  | Some e => inl e
  | None => inr (mkTensor v)
  end.

(** [g.AddOperation(args)]: the new operation's position, or an error. *)
Definition AddOperation (g : Graph) (args : OpSpec) : error + (Graph * nat) :=
  match AddOperation_err rt g args with
  | Some e => inl e
  | None => inr (g ++ [args], length g)
  end.

(** [tensorflow.NewSession(g, nil)] *)
Definition NewSession (g : Graph) : error + Session :=
  match NewSession_err rt g with
  | Some e => inl e
  | None => inr (mkSession g)
  end.

(** [s.Run(feeds, fetches, nil)]: an [Output] of a nil operation among the
    feeds or the fetches makes it panic. *)
Definition Run (s : Session) (feeds : list (Output * Tensor)) (fetches : list Output)
    : exec (error + list Tensor) :=
  if bool_decide (Forall (λ o, is_Some (Op o)) (feeds.*1 ++ fetches))
  then Ret (Session_Run rt (session_graph s) feeds fetches)
  else Panicked NilOperation.

(** [g.Import(def, "")] on a new graph: the graph imported, an error, or
    a panic inside the library (the versions that copy the bytes from the
    address of [def[0]] panic on an empty [def]). *)
Definition Import (def : string) : exec (error + Graph) := Graph_Import rt def.
End calls.

(** [g.Operation(name)]: nil when no operation has the name. *)
Definition Operation (g : Graph) (name : string) : option nat :=
  fst <$> list_find (λ o, Name o = name) g.

(** [op.Output(i)] *)
Definition Operation_Output (o : option nat) (i : nat) : Output := mkOutput o i.

End tensorflow.

(** Package [op]: graph construction in a scope.  A scope and its sub-scopes
    share the graph under construction and the first error; they differ in
    their name space. *)
Module op.
Import tensorflow.

Record shared : Type := mkShared { graph : Graph; err : option error }.

(** [*op.Scope]: the handle is the name space. *)
Record Scope : Type := mkScope { namespace : string }.

(** A step of construction on the shared state. *)
Record Build (A : Type) : Type := mkBuild { runBuild : shared → A * shared }.
Global Arguments mkBuild {A} runBuild.
Global Arguments runBuild {A} b st.

Global Instance Build_ret : MRet Build := λ A a, mkBuild (λ st, (a, st)).
Global Instance Build_bind : MBind Build := λ A B f m,
  mkBuild (λ st, let '(a, st') := runBuild m st in runBuild (f a) st').

(** [op.NewScope()] *)
Definition NewScope : Scope * shared := (mkScope "", mkShared [] None).

(** [s.SubScope(namespace)]; the name is used for the first time. *)
Definition SubScope (s : Scope) (name : string) : Scope :=
  if bool_decide (namespace s = "") then mkScope name
  else mkScope (namespace s +:+ "/" +:+ name).

Section ops.
Variable rt : Runtime.

(** [s.AddOperation(args)]: nothing is added once the scope has an
    error; a refused operation becomes the scope's error. *)
Definition Scope_AddOperation (s : Scope) (args : OpSpec) : Build (option nat) :=
  mkBuild (λ st,
    match err st with
    | Some _ => (None, st)
    | None =>
        let name := if bool_decide (Name args = "") then Type_ args else Name args in
        let name := if bool_decide (namespace s = "") then name
                    else namespace s +:+ "/" +:+ name in
        let args := mkOpSpec (Type_ args) name (Input args) (Attrs args) in
        match AddOperation rt (graph st) args with
        | inl e => (None, mkShared (graph st) (Some (ErrAddOperation (Type_ args) e)))
        | inr (g, o) => (Some o, mkShared g None)
        end
    end).

(** The shape of every generated wrapper: return the zero [Output] when
    the scope has an error, else add the operation and return its
    output 0. *)
Definition wrapper (s : Scope) (args : OpSpec) : Build Output :=
  mkBuild (λ st,
    match err st with
    | Some _ => (mkOutput None 0, st)
    | None =>
        let '(o, st') := runBuild (Scope_AddOperation s args) st in
        (Operation_Output o 0, st')
    end).

(** [op.Placeholder(s, dtype)] *)
Definition Placeholder (s : Scope) (dtype : DataType) : Build Output :=
  wrapper s (mkOpSpec "Placeholder" "" [] {[ "dtype" := AttrType dtype ]}).

(** [op.DecodeJpegChannels(value)] *)
Definition DecodeJpegChannels (n : Z) : gmap string attr → gmap string attr :=
  <[ "channels" := AttrInt n ]>.

(** [op.DecodeJpeg(s, contents, optional...)] *)
Definition DecodeJpeg (s : Scope) (contents : Output)
    (optional : list (gmap string attr → gmap string attr)) : Build Output :=
  wrapper s (mkOpSpec "DecodeJpeg" "" [contents] (foldl (λ m a, a m) ∅ optional)).

(** [op.Cast(s, x, DstT)] *)
Definition Cast (s : Scope) (x : Output) (DstT : DataType) : Build Output :=
  wrapper s (mkOpSpec "Cast" "" [x] {[ "DstT" := AttrType DstT ]}).

(** [op.ExpandDims(s, input, axis)] *)
Definition ExpandDims (s : Scope) (input axis : Output) : Build Output :=
  wrapper s (mkOpSpec "ExpandDims" "" [input; axis] ∅).

(** [op.ResizeBilinear(s, images, size)] *)
Definition ResizeBilinear (s : Scope) (images size : Output) : Build Output :=
  wrapper s (mkOpSpec "ResizeBilinear" "" [images; size] ∅).

(** [op.Sub(s, x, y)] *)
Definition Sub (s : Scope) (x y : Output) : Build Output :=
  wrapper s (mkOpSpec "Sub" "" [x; y] ∅).

(** [op.Const(s, value)]: the value becomes a tensor first. *)
Definition Const (s : Scope) (v : value) : Build Output :=
  mkBuild (λ st,
    match err st with
    | Some _ => (mkOutput None 0, st)
    | None =>
        match NewTensor rt v with
        | inl e => (mkOutput None 0, mkShared (graph st) (Some (ErrAddOperation "Const" e)))
        | inr t =>
            let '(o, st') :=
              runBuild (Scope_AddOperation s
                (mkOpSpec "Const" "" []
                   {[ "dtype" := AttrType (Tensor_DataType t); "value" := AttrTensor t ]})) st in
            (Operation_Output o 0, st')
        end
    end).
End ops.

(** [s.Finalize()] *)
Definition Finalize (st : shared) : error + Graph :=
  match err st with
  | Some e => inl e
  | None => inr (graph st)
  end.

End op.

(** ** The world outside the program *)

(** An [io.ReadCloser]: the data its successful reads deliver, in order,
    and how the reading ends, with [io.EOF] ([None]) or with an error. *)
Record ReadCloser : Type := mkReader { reads : list string; failure : option error }.

(** [*http.Response] *)
Record Response : Type := mkResponse { Body : ReadCloser }.

(** The labels file behind a [bufio.Scanner]: the lines [Scan] delivers and
    the value of [scanner.Err()] after the last one. *)
Record File : Type := mkFile { lines : list string; scanErr : option error }.

(** What the run depends on outside the program: the arguments, the
    network, the files, the TensorFlow library. *)
Record World : Type := {
  Args : list string;                          (* os.Args *)
  http_Get : string → error + Response;        (* http.Get *)
  ioutil_ReadFile : string → error + string;   (* ioutil.ReadFile *)
  os_Open : string → error + File;             (* os.Open *)
  tf : tensorflow.Runtime
}.

(** What the program writes to standard output: the line of the URL, and a
    line per label carrying the label and its probability (printed times
    100, with two decimals). *)
Inductive output : Type :=
| PrintUrl (url : string)
| PrintLabel (l : Label).

(** How the process ends early: [log.Fatalf(format, err)] or a panic. *)
Inductive stop : Type :=
| Fatalf (format : string) (arg : option error)
| Panic (p : panic).

(** A step of [main]: it extends the output and goes on, or stops. *)
Record proc (A : Type) : Type := mkProc { runProc : list output → list output * (stop + A) }.
Global Arguments mkProc {A} runProc.
Global Arguments runProc {A} p out.

Global Instance proc_ret : MRet proc := λ A a, mkProc (λ out, (out, inr a)).
Global Instance proc_bind : MBind proc := λ A B f m,
  mkProc (λ out,
    match runProc m out with
    | (out', inr a) => runProc (f a) out'
    | (out', inl s) => (out', inl s)
    end).

Definition printf (o : output) : proc unit := mkProc (λ out, (out ++ [o], inr tt)).
Definition log_Fatalf {A} (format : string) (arg : option error) : proc A :=
  mkProc (λ out, (out, inl (Fatalf format arg))).
Definition lift {A} (m : exec A) : proc A :=
  mkProc (λ out,
    match m with
    | Ret a => (out, inr a)
    | Panicked p => (out, inl (Panic p))
    end).

(** The loop of [io.Copy]: each read is written to the buffer. *)
Fixpoint copyReads (buf : string) (rs : list string) : string :=
  match rs with
  | [] => buf
  | r :: rs' => copyReads (buf +:+ r) rs'
  end.

(** [io.Copy(&buf, src)] on a [bytes.Buffer]: everything read before the
    end is written to the buffer; the results are the number of bytes
    written and the error that ended the reading, if any. *)
Definition io_Copy (buf : string) (src : ReadCloser) : string * (nat * option error) :=
  let buf' := copyReads buf (reads src) in
  (buf', (String.length buf' - String.length buf, failure src)).

(** [const graphFile], [const labelsFile] *)
Definition graphFile : string := "/model/tensorflow_inception_graph.pb".
Definition labelsFile : string := "/model/imagenet_comp_graph_label_strings.txt".

(** [float32(117)] *)
Definition f32_117 : float32 := S754_finite false 15335424 (-17).

(** ** The pipeline *)

Section Pipeline.
Variable sortSort : Labels → exec Labels.
Variable w : World.

Let rt := tf w.

(** The loop [for scanner.Scan() { labels = append(labels, scanner.Text()) }]. *)
Fixpoint scanLoop (texts : list string) (labels : list string) : list string :=
  match texts with
  | [] => labels
  | text :: rest => scanLoop rest (labels ++ [text])
  end.

(** [func loadModel()], returning the graph, the labels and an error: nil,
    nil and the error on the first three ways out; the graph, the labels
    scanned and [scanner.Err()] on the last. *)
Definition loadModel : exec (option tensorflow.Graph * list string * option error) :=
  match ioutil_ReadFile w graphFile with
  | inl err => Ret (None, [], Some err)
  | inr model =>
      imported ← tensorflow.Import rt model;
      match imported with
      | inl err => Ret (None, [], Some err)
      | inr graph =>
          match os_Open w labelsFile with
          | inl err => Ret (None, [], Some err)
          | inr labelsFile =>
              let labels := scanLoop (lines labelsFile) [] in
              Ret (Some graph, labels, scanErr labelsFile)
          end
      end
  end.

(** [func getNormalizedGraph() (graph, input, output, err)]: the arguments
    of the nested calls are built left to right, innermost first. *)
Definition getNormalizedGraph
    : error + (tensorflow.Graph * tensorflow.Output * tensorflow.Output) :=
  let '(s, st) := op.NewScope in
  let '((input, output), st) :=
    op.runBuild (
      input ← op.Placeholder rt s tensorflow.String;
      decode ← op.DecodeJpeg rt s input [op.DecodeJpegChannels 3];
      cast ← op.Cast rt s decode tensorflow.Float;
      make_batch ← op.Const rt (op.SubScope s "make_batch") (tensorflow.OfInt32 0);
      expand ← op.ExpandDims rt s cast make_batch;
      size ← op.Const rt (op.SubScope s "size") (tensorflow.OfInt32s [224; 224]%Z);
      resize ← op.ResizeBilinear rt s expand size;
      mean ← op.Const rt (op.SubScope s "mean") (tensorflow.OfFloat32 f32_117);
      output ← op.Sub rt s resize mean;
      mret (input, output)) st in
  match op.Finalize st with
  | inl err => inl err
  | inr graph => inr (graph, input, output)
  end.

(** [func normalizeImage(body io.ReadCloser)], returning a tensor and an
    error. *)
Definition normalizeImage (body : ReadCloser) : exec (error + tensorflow.Tensor) :=
  let '(buf, _) := io_Copy "" body in
  match tensorflow.NewTensor rt (tensorflow.OfString buf) with
  | inl err => Ret (inl err)
  | inr tensor =>
      match getNormalizedGraph with
      | inl err => Ret (inl err)
      | inr (graph, input, output) =>
          match tensorflow.NewSession rt graph with
          | inl err => Ret (inl err)
          | inr session =>
              ran ← tensorflow.Run rt session [(input, tensor)] [output];
              match ran with
              | inl err => Ret (inl err)
              | inr normalized =>
                  t ← index normalized 0;
                  mret (inr t)
              end
          end
      end
  end.

(** The loop [for _, l := range res { fmt.Printf(...) }]. *)
Fixpoint printLabels (res : list Label) : proc unit :=
  match res with
  | [] => mret tt
  | l :: rest => printf (PrintLabel l);; printLabels rest
  end.

(** [func main()].  The call of [os.Setenv] and the deferred [Close] leave
    no trace in what is modelled and are left out.  [tensorflow.NewSession]
    is the first to follow the pointer to the model graph. *)
Definition main : proc unit :=
  if bool_decide (length (Args w) < 2) then
    log_Fatalf "usage: imgrecognition <image_url>" None
  else
    url ← lift (index (Args w) 1);
    printf (PrintUrl url);;
    match http_Get w url with
    | inl e => log_Fatalf "unable to get image from url: %v" (Some e)
    | inr response =>
    loaded ← lift loadModel;
    match loaded with
    | (_, _, Some err) => log_Fatalf "unable to load model: %v" (Some err)
    | (modelGraph, labels, None) =>
    normalized ← lift (normalizeImage (Body response));
    match normalized with
    | inl err => log_Fatalf "unable to make a tensor from image: %v" (Some err)
    | inr tensor =>
    modelGraph ← lift (deref modelGraph);
    match tensorflow.NewSession rt modelGraph with
    | inl err => log_Fatalf "could not init session: %v" (Some err)
    | inr session =>
    ran ← lift (tensorflow.Run rt session
            [(tensorflow.Operation_Output (tensorflow.Operation modelGraph "input") 0, tensor)]
            [tensorflow.Operation_Output (tensorflow.Operation modelGraph "output") 0]);
    match ran with
    | inl err => log_Fatalf "could not run inference: %v" (Some err)
    | inr output =>
        output0 ← lift (index output 0);
        match tensorflow.Value output0 with
        | tensorflow.OfFloat32ss m =>
            probabilities ← lift (index m 0);
            res ← lift (getTopFiveLabels sortSort labels probabilities);
            printLabels (elems res)
        | _ => lift (Panicked InterfaceConversion)
        end
    end end end end end.

(** The run of the process from an empty output. *)
Definition run : list output * (stop + unit) := runProc main [].
End Pipeline.

(** ** Vocabulary of the statements *)

(** What package [sort] asks of [Less]: "Less must describe a transitive
    ordering", in the two forms its documentation gives. *)
Definition TransitiveOrdering (a : Labels) : Prop :=
  (∀ i j k, Less a i j = Ret true → Less a j k = Ret true → Less a i k = Ret true) ∧
  (∀ i j k, Less a i j = Ret false → Less a j k = Ret false → Less a i k = Ret false).

(** Sorted as [Less] determines: no element must sort before an earlier one. *)
Definition SortedByLess (a : Labels) : Prop :=
  ∀ i j, i < j < Len a → Less a j i = Ret false.

(** What package [sort] promises of [sort.Sort] on [Labels]: it returns, it
    only swaps elements, and it sorts when [Less] is a transitive ordering.
    It need not be stable. *)
Record SortContract (sortSort : Labels → exec Labels) : Prop := {
  sort_permutes : ∀ a, ∃ a', sortSort a = Ret a' ∧ a' ≡ₚ a;
  sort_orders : ∀ a a', TransitiveOrdering a → sortSort a = Ret a' → SortedByLess a'
}.

(** [R[i].Probability >= R[i+1].Probability] at every valid [i]. *)
Definition descending (R : list Label) : Prop :=
  ∀ i x y, R !! i = Some x → R !! S i = Some y →
    f32_ge (Probability x) (Probability y) = true.

(** The number of pairs the ranker forms. *)
Definition pairCount (labels : list string) (probabilities : list float32) : nat :=
  length labels `min` length probabilities.

(** No probability that gets paired is a NaN. *)
Definition nanFree (labels : list string) (probabilities : list float32) : Prop :=
  ∀ i p, i < length labels → probabilities !! i = Some p → is_nan p = false.

(** No two probabilities tie: of any two positions, one holds the greater. *)
Definition noTies (probabilities : list float32) : Prop :=
  ∀ i j p q, i ≠ j → probabilities !! i = Some p → probabilities !! j = Some q →
    f32_gt p q = true ∨ f32_gt q p = true.

(** The float32 constants of the examples. *)
Definition f32_0_1 : float32 := S754_finite false 13421773 (-27).
Definition f32_0_2 : float32 := S754_finite false 13421773 (-26).
Definition f32_0_5 : float32 := S754_finite false 8388608 (-24).
Definition f32_0_7 : float32 := S754_finite false 11744051 (-24).

(** ** The loops of the insertion sort, read as list functions *)

(** One run of the inner loop on the prefix before [x], given last element
    first: [x] sinks past every element it must sort before. *)
Fixpoint sink (x : Label) (rpre : list Label) : list Label :=
  match rpre with
  | [] => [x]
  | y :: r => if before x y then y :: sink x r else x :: y :: r
  end.

(** The outer loop: the elements of [rest] sink one after the other. *)
Definition sinkAll (rpre rest : list Label) : list Label :=
  foldl (λ acc x, sink x acc) rpre rest.

(** An element may stand before another: the other must not sort before it. *)
Definition mayPrecede (x y : Label) : Prop := before y x = false.

(** The second form of the transitive ordering, on the elements of a list. *)
Definition NegTransOn (l : list Label) : Prop :=
  ∀ x y z, x ∈ l → y ∈ l → z ∈ l →
    before x y = false → before y z = false → before x z = false.

(** The pairs, positionally. *)
Definition pairs (labels : list string) (probabilities : list float32) : list Label :=
  zip_with mkLabel labels probabilities.

(** The slices [append] builds from the nil slice: the capacity is 0, 1, 2
    or 4 while fewer than 5 elements are held, and never below the length. *)
Definition grown {A} (s : slice A) : Prop :=
  (len s ≤ cap s ∧ (cap s = 0 ∨ cap s = 1 ∨ cap s = 2 ∨ cap s = 4)) ∨
  (5 ≤ len s ∧ len s ≤ cap s).

(** Another sort within the contract of [sort.Sort]: the insertion sort run
    on the reversed slice.  On ties it orders differently. *)
Definition SortReversed (a : Labels) : exec Labels := Sort (reverse a).

(** The output 0 of the operation at position [n] of a graph. *)
Definition outputOf (n : nat) : tensorflow.Output :=
  tensorflow.Operation_Output (Some n) 0.

(** The operation at position [n] of the graph [g] has the given type,
    inputs and attributes. *)
Definition operationAt (g : tensorflow.Graph) (n : nat) (type : string)
    (inputs : list tensorflow.Output) (attrs : gmap string tensorflow.attr) : Prop :=
  ∃ spec, g !! n = Some spec
    ∧ tensorflow.Type_ spec = type
    ∧ tensorflow.Input spec = inputs
    ∧ tensorflow.Attrs spec = attrs.

(** The operation at position [n] is the constant holding [v]. *)
Definition constantAt (g : tensorflow.Graph) (n : nat) (v : tensorflow.value) : Prop :=
  operationAt g n "Const" []
    {[ "dtype" := tensorflow.AttrType (tensorflow.Tensor_DataType (tensorflow.mkTensor v));
       "value" := tensorflow.AttrTensor (tensorflow.mkTensor v) ]}.

(** The library accepts every tensor and every operation. *)
Definition accepting (rt : tensorflow.Runtime) : Prop :=
  (∀ v, tensorflow.NewTensor_err rt v = None)
  ∧ (∀ g args, tensorflow.AddOperation_err rt g args = None).

(** The places where the pipeline can be handed an error. *)
Inductive stage : Type :=
| Fetch               (* http.Get *)
| ModelLoad           (* loadModel *)
| InputTensor         (* tensorflow.NewTensor, in normalizeImage *)
| GraphBuild          (* getNormalizedGraph *)
| PreprocessSession   (* tensorflow.NewSession, in normalizeImage *)
| PreprocessRun       (* session.Run, in normalizeImage *)
| SessionCreation     (* tensorflow.NewSession, in main *)
| ClassificationRun.  (* session.Run, in main *)

(** The format [main] gives to [log.Fatalf] for an error of the stage. *)
Definition stageFormat (s : stage) : string :=
  match s with
  | Fetch => "unable to get image from url: %v"
  | ModelLoad => "unable to load model: %v"
  | InputTensor | GraphBuild | PreprocessSession | PreprocessRun =>
      "unable to make a tensor from image: %v"
  | SessionCreation => "could not init session: %v"
  | ClassificationRun => "could not run inference: %v"
  end.

(** The steps of [main] that check an error, each with a format of its
    own. *)
Inductive step : Type :=
| GetImage | LoadModel | MakeTensor | InitSession | RunInference.

(** The step of [main] a stage belongs to. *)
Definition stageStep (s : stage) : step :=
  match s with
  | Fetch => GetImage
  | ModelLoad => LoadModel
  | InputTensor | GraphBuild | PreprocessSession | PreprocessRun => MakeTensor
  | SessionCreation => InitSession
  | ClassificationRun => RunInference
  end.

(** The bytes copied out of the body of a response. *)
Definition imageBytes (response : Response) : string := (io_Copy "" (Body response)).1.

(** [stageFails w url s e]: with the image at [url], the calls checked
    before the stage [s] return no error and the call of the stage [s]
    returns the error [e]. *)
Inductive stageFails (w : World) (url : string) : stage → error → Prop :=
| Fetch_fails e :
    http_Get w url = inl e →
    stageFails w url Fetch e
| ModelLoad_fails response modelGraph labels e :
    http_Get w url = inr response →
    loadModel w = Ret (modelGraph, labels, Some e) →
    stageFails w url ModelLoad e
| InputTensor_fails response modelGraph labels e :
    http_Get w url = inr response →
    loadModel w = Ret (modelGraph, labels, None) →
    tensorflow.NewTensor (tf w) (tensorflow.OfString (imageBytes response)) = inl e →
    stageFails w url InputTensor e
| GraphBuild_fails response modelGraph labels tensor e :
    http_Get w url = inr response →
    loadModel w = Ret (modelGraph, labels, None) →
    tensorflow.NewTensor (tf w) (tensorflow.OfString (imageBytes response)) = inr tensor →
    getNormalizedGraph w = inl e →
    stageFails w url GraphBuild e
| PreprocessSession_fails response modelGraph labels tensor graph input output e :
    http_Get w url = inr response →
    loadModel w = Ret (modelGraph, labels, None) →
    tensorflow.NewTensor (tf w) (tensorflow.OfString (imageBytes response)) = inr tensor →
    getNormalizedGraph w = inr (graph, input, output) →
    tensorflow.NewSession (tf w) graph = inl e →
    stageFails w url PreprocessSession e
| PreprocessRun_fails response modelGraph labels tensor graph input output session e :
    http_Get w url = inr response →
    loadModel w = Ret (modelGraph, labels, None) →
    tensorflow.NewTensor (tf w) (tensorflow.OfString (imageBytes response)) = inr tensor →
    getNormalizedGraph w = inr (graph, input, output) →
    tensorflow.NewSession (tf w) graph = inr session →
    tensorflow.Run (tf w) session [(input, tensor)] [output] = Ret (inl e) →
    stageFails w url PreprocessRun e
| SessionCreation_fails response modelGraph labels tensor e :
    http_Get w url = inr response →
    loadModel w = Ret (Some modelGraph, labels, None) →
    normalizeImage w (Body response) = Ret (inr tensor) →
    tensorflow.NewSession (tf w) modelGraph = inl e →
    stageFails w url SessionCreation e
| ClassificationRun_fails response modelGraph labels tensor session e :
    http_Get w url = inr response →
    loadModel w = Ret (Some modelGraph, labels, None) →
    normalizeImage w (Body response) = Ret (inr tensor) →
    tensorflow.NewSession (tf w) modelGraph = inr session →
    tensorflow.Run (tf w) session
      [(tensorflow.Operation_Output (tensorflow.Operation modelGraph "input") 0, tensor)]
      [tensorflow.Operation_Output (tensorflow.Operation modelGraph "output") 0]
    = Ret (inl e) →
    stageFails w url ClassificationRun e.

(** No two probabilities are equal, by [==]. *)
Definition noTwoEqual (probabilities : list float32) : Prop :=
  ∀ i j p q, i ≠ j → probabilities !! i = Some p → probabilities !! j = Some q →
    f32_eq p q = false.

(** ** Example inputs *)

Definition labels3 : list string := ["cat"; "dog"; "fish"].
Definition probabilities3 : list float32 := [f32_0_1; f32_0_7; f32_0_2].
Definition labels5 : list string := ["cat"; "dog"; "fish"; "bird"; "frog"].
Definition probabilities5 : list float32 :=
  [f32_0_1; f32_0_7; f32_0_2; f32_0_5; S754_zero false].
Definition probabilitiesNaN : list float32 :=
  [S754_nan; f32_0_7; f32_0_5; f32_0_2; f32_0_1].
Definition ranked5 : slice Label :=
  Slice [mkLabel "dog" f32_0_7; mkLabel "bird" f32_0_5; mkLabel "fish" f32_0_2;
         mkLabel "cat" f32_0_1; mkLabel "frog" (S754_zero false)] 8.
Definition probabilitiesTied : list float32 :=
  [f32_0_5; f32_0_5; f32_0_5; f32_0_5; f32_0_5].
Definition rankedNaN : slice Label :=
  Slice [mkLabel "cat" S754_nan; mkLabel "dog" f32_0_7; mkLabel "fish" f32_0_5;
         mkLabel "bird" f32_0_2; mkLabel "frog" f32_0_1] 8.

(** A model graph in short: the two operations [main] looks up. *)
Definition modelGraph2 : tensorflow.Graph :=
  [tensorflow.mkOpSpec "Placeholder" "input" [] ∅;
   tensorflow.mkOpSpec "Softmax" "output" [outputOf 0] ∅].

(** A library that accepts everything and runs the preprocessing graph (the
    one graph of 9 operations), and a world around it in which the
    classification run returns an error. *)
Definition exampleRuntime : tensorflow.Runtime :=
  {| tensorflow.NewTensor_err := λ _, None;
     tensorflow.AddOperation_err := λ _ _, None;
     tensorflow.NewSession_err := λ _, None;
     tensorflow.Session_Run := λ g _ _,
       if bool_decide (length g = 9)
       then inr [tensorflow.mkTensor (tensorflow.OfOther tensorflow.Float [1; 224; 224; 3]%Z)]
       else inl (Err "incompatible shapes");
     tensorflow.Graph_Import := λ _, Ret (inr modelGraph2) |}.

Definition exampleUrl : string := "http://example.com/cat.jpg".

Definition exampleWorld : World :=
  {| Args := ["imgrecognition"; exampleUrl];
     http_Get := λ _, inr (mkResponse (mkReader ["JFIF"] None));
     ioutil_ReadFile := λ _, inr "graph";
     os_Open := λ _, inr (mkFile ["cat"; "dog"] None);
     tf := exampleRuntime |}.

(** ** Vocabulary of the further properties *)

(** One more example: six pairs, of which the ranker keeps five. *)
Definition labels6 : list string := ["cat"; "dog"; "fish"; "bird"; "frog"; "newt"].
Definition probabilities6 : list float32 :=
  [f32_0_1; f32_0_7; f32_0_2; f32_0_5; S754_zero false; f32_117].
Definition ranked6 : slice Label :=
  Slice [mkLabel "newt" f32_117; mkLabel "dog" f32_0_7; mkLabel "bird" f32_0_5;
         mkLabel "fish" f32_0_2; mkLabel "cat" f32_0_1] 8.

(** The pairs of the example in another order. *)
Definition labels5r : list string := ["frog"; "bird"; "fish"; "dog"; "cat"].
Definition probabilities5r : list float32 :=
  [S754_zero false; f32_0_5; f32_0_2; f32_0_7; f32_0_1].

(** The name [Scope.AddOperation] gives an operation: its own, or its type
    when it has none, behind the name space of the scope. *)
Definition scopedName (s : op.Scope) (args : tensorflow.OpSpec) : string :=
  let name := if bool_decide (tensorflow.Name args = "")
              then tensorflow.Type_ args else tensorflow.Name args in
  if bool_decide (op.namespace s = "") then name
  else op.namespace s +:+ "/" +:+ name.

(** The names of the operations of the preprocessing graph. *)
Definition normalizedNames : list string :=
  ["Placeholder"; "DecodeJpeg"; "Cast"; "make_batch/Const"; "ExpandDims";
   "size/Const"; "ResizeBilinear"; "mean/Const"; "Sub"].

(** Every input of every operation is the output 0 of an earlier operation
    of the graph. *)
Definition wellFormed (g : tensorflow.Graph) : Prop :=
  ∀ n spec o, g !! n = Some spec → o ∈ tensorflow.Input spec →
    ∃ m, m < n ∧ o = outputOf m.

(** [classified w url labels output]: with the image at [url], every stage
    up to the classification run succeeds; [labels] are the labels loaded
    and [output] the tensors the classification run returns. *)
Definition classified (w : World) (url : string) (labels : list string)
    (output : list tensorflow.Tensor) : Prop :=
  ∃ response modelGraph tensor session,
    http_Get w url = inr response
    ∧ loadModel w = Ret (Some modelGraph, labels, None)
    ∧ normalizeImage w (Body response) = Ret (inr tensor)
    ∧ tensorflow.NewSession (tf w) modelGraph = inr session
    ∧ tensorflow.Run (tf w) session
        [(tensorflow.Operation_Output (tensorflow.Operation modelGraph "input") 0, tensor)]
        [tensorflow.Operation_Output (tensorflow.Operation modelGraph "output") 0]
      = Ret (inr output).

(** A library that accepts everything, normalizes on the preprocessing
    graph and returns [output] from the classification run; and a world
    around it whose labels file holds [labelLines]. *)
Definition rankingRuntime (output : list tensorflow.Tensor) : tensorflow.Runtime :=
  {| tensorflow.NewTensor_err := λ _, None;
     tensorflow.AddOperation_err := λ _ _, None;
     tensorflow.NewSession_err := λ _, None;
     tensorflow.Session_Run := λ g _ _,
       if bool_decide (length g = 9)
       then inr [tensorflow.mkTensor (tensorflow.OfOther tensorflow.Float [1; 224; 224; 3]%Z)]
       else inr output;
     tensorflow.Graph_Import := λ _, Ret (inr modelGraph2) |}.

Definition rankingWorld (labelLines : list string) (output : list tensorflow.Tensor) : World :=
  {| Args := ["imgrecognition"; exampleUrl];
     http_Get := λ _, inr (mkResponse (mkReader ["JF"; "IF"] None));
     ioutil_ReadFile := λ _, inr "graph";
     os_Open := λ _, inr (mkFile labelLines None);
     tf := rankingRuntime output |}.

(** The output of a classification run over the five probabilities of the
    example. *)
Definition output5 : list tensorflow.Tensor :=
  [tensorflow.mkTensor (tensorflow.OfFloat32ss [probabilities5])].

(** A world in which the reading of the body breaks off, all else going
    well. *)
Definition truncatedResponse : Response :=
  mkResponse (mkReader ["JF"] (Some (Err "unexpected EOF"))).

Definition truncatedWorld : World :=
  {| Args := ["imgrecognition"; exampleUrl];
     http_Get := λ _, inr truncatedResponse;
     ioutil_ReadFile := λ _, inr "graph";
     os_Open := λ _, inr (mkFile labels5 None);
     tf := rankingRuntime output5 |}.

(** Two worlds in which the preprocessing fails with the same error: in
    the first at the creation of its session, in the second at its run. *)
Definition preprocessFailRuntime (atSession : bool) : tensorflow.Runtime :=
  {| tensorflow.NewTensor_err := λ _, None;
     tensorflow.AddOperation_err := λ _ _, None;
     tensorflow.NewSession_err := λ g,
       if bool_decide (length g = 9 ∧ atSession = true)
       then Some (Err "resource exhausted") else None;
     tensorflow.Session_Run := λ g _ _,
       if bool_decide (length g = 9)
       then inl (Err "resource exhausted")
       else inr output5;
     tensorflow.Graph_Import := λ _, Ret (inr modelGraph2) |}.

Definition preprocessFailWorld (atSession : bool) : World :=
  {| Args := ["imgrecognition"; exampleUrl];
     http_Get := λ _, inr (mkResponse (mkReader ["JFIF"] None));
     ioutil_ReadFile := λ _, inr "graph";
     os_Open := λ _, inr (mkFile labels5 None);
     tf := preprocessFailRuntime atSession |}.

(** * Proofs *)

(** ** The order of float32 *)

Ltac cmp_cases :=
  repeat match goal with
  | |- context [Z.compare ?a ?b] => destruct (Z.compare_spec a b)
  | |- context [Pos.compare_cont Eq ?a ?b] => change (Pos.compare_cont Eq a b) with (Pos.compare a b)
  | |- context [Pos.compare ?a ?b] => destruct (Pos.compare_spec a b)
  | H : context [Z.compare ?a ?b] |- _ => destruct (Z.compare_spec a b)
  | H : context [Pos.compare_cont Eq ?a ?b] |- _ => change (Pos.compare_cont Eq a b) with (Pos.compare a b) in H
  | H : context [Pos.compare ?a ?b] |- _ => destruct (Pos.compare_spec a b)
  end.

Ltac f32_order :=
  unfold f32_gt, f32_ge, f32_eq, SFltb, SFleb, SFeqb, SFcompare, is_nan in *;
  repeat match goal with
  | x : float32 |- _ => destruct x as [[]|[]| |[] ? ?]
  end; simpl in *; try done; cmp_cases; simpl in *; try done; try lia.

Lemma f32_gt_irrefl x : f32_gt x x = false.
Proof. f32_order. Qed.

Lemma f32_gt_asym x y : f32_gt x y = true → f32_gt y x = false.
Proof. intros H. f32_order. Qed.

Lemma f32_gt_trans x y z : f32_gt x y = true → f32_gt y z = true → f32_gt x z = true.
Proof. intros H1 H2. f32_order. Qed.

Lemma f32_gt_negtrans x y z :
  is_nan y = false → f32_gt x y = false → f32_gt y z = false → f32_gt x z = false.
Proof. intros H0 H1 H2. f32_order. Qed.

Lemma f32_ge_not_gt x y :
  is_nan x = false → is_nan y = false → f32_ge x y = negb (f32_gt y x).
Proof. intros H1 H2. f32_order. Qed.

Lemma f32_ge_nan_l x : f32_ge S754_nan x = false.
Proof. f32_order. Qed.

Lemma f32_ge_nan_r x : f32_ge x S754_nan = false.
Proof. f32_order. Qed.

Lemma f32_gt_not_nan x y : f32_gt x y = true → is_nan x = false ∧ is_nan y = false.
Proof. intros H. f32_order. Qed.

(** The constants of the examples are binary32 values. *)
Lemma examples_valid :
  Forall (λ x, float32_valid x = true)
    [f32_0_1; f32_0_2; f32_0_5; f32_0_7; f32_117; S754_zero false; S754_nan].
Proof. repeat constructor. Qed.

(** ** The methods of Labels *)

Lemma bind_Ret {A B} (a : A) (f : A → exec B) : (Ret a ≫= f) = f a.
Proof. done. Qed.

Lemma index_Some {A} (a : list A) i x : a !! i = Some x → index a i = Ret x.
Proof. unfold index. by intros ->. Qed.

Lemma index_Ret {A} (a : list A) i x : index a i = Ret x → a !! i = Some x.
Proof. unfold index. by destruct (a !! i); intros [=->]. Qed.

Lemma Less_lookup (a : Labels) i j x y :
  a !! i = Some x → a !! j = Some y → Less a i j = Ret (before x y).
Proof.
  intros Hi Hj. cbn. unfold Labels_Less.
  by rewrite (index_Some _ _ _ Hi), (index_Some _ _ _ Hj).
Qed.

Lemma Swap_lookup (a : Labels) i j x y :
  a !! i = Some x → a !! j = Some y → Swap a i j = Ret (<[j:=x]> (<[i:=y]> a)).
Proof.
  intros Hi Hj. cbn. unfold Labels_Swap.
  by rewrite (index_Some _ _ _ Hi), (index_Some _ _ _ Hj).
Qed.

(** ** The insertion sort sorts *)

Lemma sink_length x r : length (sink x r) = S (length r).
Proof. induction r as [|y r IH]; simpl; [done|]. destruct (before x y); simpl; by rewrite ?IH. Qed.

Lemma sink_perm x r : sink x r ≡ₚ x :: r.
Proof.
  induction r as [|y r IH]; simpl; [done|].
  destruct (before x y); [|done]. rewrite IH. apply Permutation_swap.
Qed.

Lemma sinkAll_perm rest : ∀ rpre, sinkAll rpre rest ≡ₚ rest ++ rpre.
Proof.
  unfold sinkAll. induction rest as [|x rest IH]; intros rpre; simpl; [done|].
  rewrite IH, sink_perm. by rewrite Permutation_middle.
Qed.

Lemma siftDown_sink rpre : ∀ x post,
  siftDown (reverse rpre ++ x :: post) 0 (length rpre)
  = Ret (reverse (sink x rpre) ++ post).
Proof.
  induction rpre as [|y r IH]; intros x post; [done|].
  cbn [length siftDown sink]. rewrite bool_decide_true by lia.
  rewrite reverse_cons, <-(assoc_L (++)). cbn [app].
  assert (Hy : (reverse r ++ y :: x :: post) !! length r = Some y).
  { rewrite <-(length_reverse r). by rewrite list_lookup_middle. }
  assert (Hx : (reverse r ++ y :: x :: post) !! S (length r) = Some x).
  { rewrite lookup_app_r; rewrite length_reverse; [|lia].
    by replace (S (length r) - length r) with 1 by lia. }
  rewrite (Less_lookup _ _ _ _ _ Hx Hy), bind_Ret.
  destruct (before x y) eqn:Hb.
  - rewrite (Swap_lookup _ _ _ _ _ Hx Hy), bind_Ret.
    replace (<[length r:=x]> (<[S (length r):=y]> (reverse r ++ y :: x :: post)))
      with (reverse r ++ x :: y :: post).
    + rewrite IH. by rewrite reverse_cons, <-(assoc_L (++)).
    + rewrite insert_app_r_alt by (rewrite length_reverse; lia).
      rewrite length_reverse. replace (S (length r) - length r) with 1 by lia.
      cbn. rewrite insert_app_r_alt by (rewrite length_reverse; lia).
      rewrite length_reverse. by replace (length r - length r) with 0 by lia.
  - by rewrite !reverse_cons, <-!(assoc_L (++)).
Qed.

Lemma insertionRounds_sinkAll rest : ∀ rpre,
  insertionRounds (length rest) (reverse rpre ++ rest) 0 (length rpre)
  = Ret (reverse (sinkAll rpre rest)).
Proof.
  induction rest as [|x rest IH]; intros rpre.
  - cbn. by rewrite (right_id_L [] (++)).
  - cbn [length insertionRounds]. rewrite siftDown_sink. cbn.
    rewrite <-(sink_length x rpre). apply IH.
Qed.

Lemma Sort_sinkAll (a : Labels) :
  Sort a = Ret (match a with [] => [] | x :: rest => reverse (sinkAll [x] rest) end).
Proof.
  destruct a as [|x rest]; [done|].
  unfold Sort, insertionSort. cbn [Len Labels_Interface Labels_Len length].
  replace (S (length rest) - (0 + 1)) with (length rest) by lia.
  apply (insertionRounds_sinkAll rest [x]).
Qed.

(** Sortedness, on elements and on positions. *)

Lemma before_irrefl x : before x x = false.
Proof. apply f32_gt_irrefl. Qed.

Lemma before_asym x y : before x y = true → before y x = false.
Proof. apply f32_gt_asym. Qed.

Lemma before_trans x y z : before x y = true → before y z = true → before x z = true.
Proof. apply f32_gt_trans. Qed.

Lemma NegTransOn_sub l1 l2 : (∀ x, x ∈ l1 → x ∈ l2) → NegTransOn l2 → NegTransOn l1.
Proof. intros Hsub Hn x y z Hx Hy Hz. apply Hn; by apply Hsub. Qed.

Lemma NegTransOn_perm l1 l2 : l1 ≡ₚ l2 → NegTransOn l1 → NegTransOn l2.
Proof.
  intros Hp Hn x y z Hx Hy Hz. rewrite <-Hp in Hx, Hy, Hz. by apply Hn.
Qed.

Lemma TransitiveOrdering_NegTransOn (a : Labels) : TransitiveOrdering a → NegTransOn a.
Proof.
  intros [_ Hneg] x y z [i Hi]%list_elem_of_lookup [j Hj]%list_elem_of_lookup
    [k Hk]%list_elem_of_lookup Hxy Hyz.
  specialize (Hneg i j k).
  rewrite (Less_lookup _ _ _ _ _ Hi Hj), (Less_lookup _ _ _ _ _ Hj Hk),
    (Less_lookup _ _ _ _ _ Hi Hk), Hxy, Hyz in Hneg.
  specialize (Hneg eq_refl eq_refl). congruence.
Qed.

Lemma StronglySorted_lookup {A} (R : relation A) l i j x y :
  StronglySorted R l → i < j → l !! i = Some x → l !! j = Some y → R x y.
Proof.
  intros Hs. revert i j. induction Hs as [|a l Hs IH Hall]; intros i j Hij Hi Hj; [done|].
  destruct j as [|j]; [lia|]. destruct i as [|i]; simplify_eq/=.
  - rewrite Forall_forall in Hall. apply Hall. by eapply list_elem_of_lookup_2.
  - apply (IH i j); [lia|done..].
Qed.

Lemma lookup_StronglySorted {A} (R : relation A) l :
  (∀ i j x y, i < j → l !! i = Some x → l !! j = Some y → R x y) → StronglySorted R l.
Proof.
  induction l as [|a l IH]; intros H; constructor.
  - apply IH. intros i j x y Hij Hi Hj. apply (H (S i) (S j)); [lia|done..].
  - apply Forall_forall. intros y [j Hj]%list_elem_of_lookup.
    apply (H 0 (S j)); [lia|done..].
Qed.

Lemma SortedByLess_StronglySorted (a : Labels) :
  SortedByLess a ↔ StronglySorted mayPrecede a.
Proof.
  split.
  - intros H. apply lookup_StronglySorted. intros i j x y Hij Hi Hj.
    specialize (H i j). rewrite (Less_lookup _ _ _ _ _ Hj Hi) in H.
    unfold mayPrecede. apply lookup_lt_Some in Hj.
    cbn in H. unfold Labels_Len in H. specialize (H (conj Hij Hj)). congruence.
  - intros H i j [Hij Hj].
    destruct (lookup_lt_is_Some_2 a j Hj) as [y Hy].
    destruct (lookup_lt_is_Some_2 a i) as [x Hx]; [cbn in Hj; unfold Labels_Len in Hj; lia|].
    rewrite (Less_lookup _ _ _ _ _ Hy Hx). f_equal.
    apply (StronglySorted_lookup _ _ _ _ _ _ H Hij Hx Hy).
Qed.

Lemma sink_sorted x r :
  NegTransOn (x :: r) →
  StronglySorted (flip mayPrecede) r → StronglySorted (flip mayPrecede) (sink x r).
Proof.
  intros Hn Hs. induction Hs as [|y r Hs IH Hall]; simpl.
  - repeat constructor.
  - destruct (before x y) eqn:Hb.
    + constructor.
      * apply IH. eapply NegTransOn_sub; [|exact Hn].
        intros a. rewrite !elem_of_cons. tauto.
      * apply Forall_forall. intros z Hz. rewrite sink_perm in Hz.
        apply elem_of_cons in Hz as [->|Hz].
        -- by apply before_asym.
        -- rewrite Forall_forall in Hall. by apply Hall.
    + constructor; [by constructor|].
      constructor; [done|]. apply Forall_forall. intros z Hz.
      rewrite Forall_forall in Hall. unfold flip, mayPrecede.
      apply (Hn x y z); [repeat constructor; done..|done|]. by apply Hall.
Qed.

Lemma sinkAll_sorted rest : ∀ rpre,
  NegTransOn (rest ++ rpre) →
  StronglySorted (flip mayPrecede) rpre → StronglySorted (flip mayPrecede) (sinkAll rpre rest).
Proof.
  unfold sinkAll. induction rest as [|x rest IH]; intros rpre Hn Hs; simpl; [done|].
  apply IH.
  - eapply NegTransOn_perm; [|exact Hn]. rewrite sink_perm. simpl. by rewrite Permutation_middle.
  - apply sink_sorted; [|done]. eapply NegTransOn_sub; [|exact Hn].
    intros a. rewrite elem_of_app, !elem_of_cons. tauto.
Qed.

Lemma StronglySorted_reverse {A} (R : relation A) l :
  StronglySorted (flip R) l → StronglySorted R (reverse l).
Proof.
  induction 1 as [|x l Hs IH Hall]; [constructor|].
  rewrite reverse_cons. apply StronglySorted_app_2; [|done|repeat constructor].
  intros y z Hy ->%list_elem_of_singleton. rewrite Forall_forall in Hall.
  apply Hall. by apply elem_of_reverse.
Qed.

(** The library's sort, run by insertion, keeps the contract. *)
Lemma Sort_contract : SortContract Sort.
Proof.
  split.
  - intros a. eexists. split; [apply Sort_sinkAll|].
    destruct a as [|x rest]; [done|].
    rewrite reverse_Permutation, sinkAll_perm. by rewrite <-Permutation_cons_append.
  - intros a a' Hto. rewrite Sort_sinkAll. intros [= <-].
    apply SortedByLess_StronglySorted. destruct a as [|x rest]; [constructor|].
    apply StronglySorted_reverse, sinkAll_sorted; [|repeat constructor].
    eapply NegTransOn_perm; [|by apply TransitiveOrdering_NegTransOn].
    apply Permutation_cons_append.
Qed.

(** ** Slices grown by append *)

Lemma append_elems {A} (s : slice A) x : elems (append s x) = elems s ++ [x].
Proof. unfold append. by case_bool_decide. Qed.

Lemma grown_nil {A} : grown (@nil_slice A).
Proof. left. cbn. lia. Qed.

Lemma grown_append {A} (s : slice A) x : grown s → grown (append s x).
Proof.
  unfold grown, append, len. intros Hg.
  case_bool_decide as Hlt; cbn [elems cap]; rewrite length_app; cbn [length].
  - destruct Hg as [[Hle Hc]|[H5 Hle]]; [left|right]; lia.
  - unfold nextslicecap. repeat case_bool_decide.
    + destruct Hg as [[Hle Hc]|[H5 Hle]]; [left|right]; lia.
    + destruct Hg as [[Hle Hc]|[H5 Hle]].
      * destruct Hc as [Hc|[Hc|[Hc|Hc]]]; [left|left|left|right]; lia.
      * right; lia.
    + pose proof (Nat.div_le_lower_bound (cap s + 3 * 256) 4 1). right. lia.
Qed.

Lemma foldl_append_elems {A} (l : list A) : ∀ s, elems (foldl append s l) = elems s ++ l.
Proof.
  induction l as [|x l IH]; intros s; simpl; [by rewrite (right_id_L [] (++))|].
  by rewrite IH, append_elems, <-(assoc_L (++)).
Qed.

Lemma foldl_append_grown {A} (l : list A) : ∀ s, grown s → grown (foldl append s l).
Proof. induction l as [|x l IH]; intros s Hs; simpl; [done|]. by apply IH, grown_append. Qed.

Lemma grown_cap_5 {A} (s : slice A) : grown s → (5 ≤ cap s ↔ 5 ≤ len s).
Proof. unfold grown. lia. Qed.

Lemma grown_len_cap {A} (s : slice A) : grown s → len s ≤ cap s.
Proof. unfold grown. lia. Qed.

(** ** The pairing loop *)

Lemma pairLoop_foldl labels probabilities : ∀ i s,
  pairLoop labels i probabilities s
  = Ret (foldl append s (pairs (drop i labels) probabilities)).
Proof.
  induction probabilities as [|p rest IH]; intros i s.
  - cbn. unfold pairs. by rewrite zip_with_nil_r.
  - cbn [pairLoop]. case_bool_decide as Hi.
    + by rewrite drop_ge.
    + destruct (lookup_lt_is_Some_2 labels i) as [l Hl]; [lia|].
      rewrite (index_Some _ _ _ Hl), bind_Ret, IH.
      by rewrite (drop_S _ _ _ Hl).
Qed.

Lemma pairLoop_pairs labels probabilities :
  ∃ s, pairLoop labels 0 probabilities nil_slice = Ret s
       ∧ elems s = pairs labels probabilities ∧ grown s.
Proof.
  eexists. split; [apply pairLoop_foldl|]. rewrite drop_0. split.
  - by rewrite foldl_append_elems.
  - apply foldl_append_grown, grown_nil.
Qed.

Lemma pairs_length labels probabilities :
  length (pairs labels probabilities) = pairCount labels probabilities.
Proof. unfold pairs, pairCount. apply length_zip_with. Qed.

Lemma pairs_lookup labels probabilities i x :
  pairs labels probabilities !! i = Some x ↔
  labels !! i = Some (Label_ x) ∧ probabilities !! i = Some (Probability x).
Proof.
  unfold pairs. rewrite lookup_zip_with_Some. split.
  - intros (l & p & -> & Hl & Hp). done.
  - intros [Hl Hp]. exists (Label_ x), (Probability x). by destruct x.
Qed.


(** ** The ranker *)

Lemma Less_Ret_inv (a : Labels) i j b :
  Less a i j = Ret b → ∃ x y, a !! i = Some x ∧ a !! j = Some y ∧ b = before x y.
Proof.
  cbn. unfold Labels_Less, index.
  destruct (a !! i) as [x|]; [|done]. destruct (a !! j) as [y|]; [|done].
  intros [= <-]. by exists x, y.
Qed.

Lemma TransitiveOrdering_intro (a : Labels) :
  (∀ i j x y, i ≠ j → a !! i = Some x → a !! j = Some y →
     before x y = false → is_nan (Probability y) = false) →
  TransitiveOrdering a.
Proof.
  intros Hnan. split; intros i j k (x & y & Hi & Hj & Hxy)%Less_Ret_inv
    (y' & z & Hj' & Hk & Hyz)%Less_Ret_inv; simplify_eq;
    rewrite (Less_lookup _ _ _ _ _ Hi Hk); f_equal.
  - by apply (before_trans x y z).
  - destruct (decide (i = j)) as [->|Hij]; [by simplify_eq|].
    symmetry in Hxy. symmetry in Hyz.
    apply (f32_gt_negtrans _ (Probability y)); [|done..].
    by apply (Hnan i j x y).
Qed.

Section RankerFacts.
Variable sortSort : Labels → exec Labels.
Hypothesis contract : SortContract sortSort.

Lemma rankedPairs_spec labels probabilities :
  ∃ a' c, rankedPairs sortSort labels probabilities = Ret (Slice a' c)
    ∧ a' ≡ₚ pairs labels probabilities
    ∧ grown (Slice a' c)
    ∧ (TransitiveOrdering (pairs labels probabilities) → SortedByLess a')
    ∧ (∃ s, pairLoop labels 0 probabilities nil_slice = Ret s ∧ c = cap s
            ∧ sortSort (pairs labels probabilities) = Ret a').
Proof.
  destruct (pairLoop_pairs labels probabilities) as (s & Hs & He & Hg).
  destruct (sort_permutes _ contract (elems s)) as (a' & Ha' & Hp).
  exists a', (cap s). unfold rankedPairs. rewrite Hs, bind_Ret, Ha', bind_Ret.
  split; [done|]. rewrite <-He. split; [done|]. split; [|split].
  - unfold grown, len in *. cbn [elems cap]. by rewrite Hp.
  - intros Hto. by eapply sort_orders.
  - by exists s.
Qed.

Lemma getTopFiveLabels_spec labels probabilities :
  ∃ a' c, rankedPairs sortSort labels probabilities = Ret (Slice a' c)
    ∧ a' ≡ₚ pairs labels probabilities
    ∧ (TransitiveOrdering (pairs labels probabilities) → SortedByLess a')
    ∧ (5 ≤ c ↔ 5 ≤ pairCount labels probabilities)
    ∧ getTopFiveLabels sortSort labels probabilities
      = if bool_decide (5 ≤ pairCount labels probabilities)
        then Ret (Slice (take 5 a') c)
        else Panicked (SliceBoundsOutOfRange 5 c).
Proof.
  destruct (rankedPairs_spec labels probabilities) as (a' & c & Hr & Hp & Hg & Hs & _).
  exists a', c. split; [done|]. split; [done|]. split; [done|].
  assert (Hlen : length a' = pairCount labels probabilities)
    by (by rewrite Hp, pairs_length).
  pose proof (grown_cap_5 _ Hg) as H5. unfold len in H5. cbn [elems cap] in H5.
  rewrite Hlen in H5. split; [done|].
  unfold getTopFiveLabels. rewrite Hr, bind_Ret. unfold slice_to. cbn [cap].
  case_bool_decide as Hc.
  - rewrite bool_decide_true by (by apply H5). do 2 f_equal.
    unfold backing, len. cbn [elems cap]. apply take_app_le. rewrite Hlen. by apply H5.
  - rewrite bool_decide_false; [done|]. by rewrite <-H5.
Qed.
End RankerFacts.

Lemma nanFree_transitive labels probabilities :
  nanFree labels probabilities → TransitiveOrdering (pairs labels probabilities).
Proof.
  intros Hnan. apply TransitiveOrdering_intro. intros i j x y _ _ Hy _.
  apply pairs_lookup in Hy as [Hl Hp]. apply (Hnan j); [|done].
  by apply lookup_lt_Some in Hl.
Qed.

Lemma noTies_transitive labels probabilities :
  noTies probabilities → TransitiveOrdering (pairs labels probabilities).
Proof.
  intros Hnt. apply TransitiveOrdering_intro. intros i j x y Hij Hx Hy _.
  apply pairs_lookup in Hx as [_ Hx]. apply pairs_lookup in Hy as [_ Hy].
  destruct (Hnt i j _ _ Hij Hx Hy) as [H|H]; apply f32_gt_not_nan in H; tauto.
Qed.

Lemma noTies_unique labels probabilities (a1 a2 : Labels) :
  noTies probabilities →
  a1 ≡ₚ pairs labels probabilities → a2 ≡ₚ pairs labels probabilities →
  SortedByLess a1 → SortedByLess a2 → a1 = a2.
Proof.
  intros Hnt Hp1 Hp2 Hs1%SortedByLess_StronglySorted Hs2%SortedByLess_StronglySorted.
  apply (StronglySorted_unique_strong mayPrecede); [|done..|by rewrite Hp1, Hp2].
  intros x1 x2 Hx1 Hx2 H12 H21. rewrite Hp1 in Hx1. rewrite Hp2 in Hx2.
  apply list_elem_of_lookup in Hx1 as [i Hi]. apply list_elem_of_lookup in Hx2 as [j Hj].
  destruct (decide (i = j)) as [->|Hij]; [congruence|].
  apply pairs_lookup in Hi as [_ Hi]. apply pairs_lookup in Hj as [_ Hj].
  unfold mayPrecede, before in *.
  destruct (Hnt i j _ _ Hij Hi Hj); congruence.
Qed.

Lemma nanFree_probabilities5 : nanFree labels5 probabilities5.
Proof.
  intros i p _ Hp. apply list_elem_of_lookup_2 in Hp.
  unfold probabilities5 in Hp. rewrite !elem_of_cons, elem_of_nil in Hp.
  by destruct Hp as [->|[->|[->|[->|[->|[]]]]]].
Defined.

Lemma noTies_probabilities5 : noTies probabilities5.
Proof.
  intros i j p q Hij Hp Hq.
  do 5 (destruct i as [|i]; [do 5 (destruct j as [|j]; [simplify_eq/=; try done; auto|]); done|]).
  done.
Defined.

(** * The claims on the ranker *)

(** C1, as amended: when no paired probability is a NaN and the ranker
    returns, its result is sorted descending by probability:
    [R[i].Probability >= R[i+1].Probability] at every valid [i]. *)
Theorem C1_sorted_descending sortSort labels probabilities R :
  SortContract sortSort →
  nanFree labels probabilities →
  getTopFiveLabels sortSort labels probabilities = Ret R →
  descending (elems R).
Proof.
  intros Hc Hnan HR.
  destruct (getTopFiveLabels_spec _ Hc labels probabilities)
    as (a' & c & _ & Hp & Hs & _ & Hget).
  rewrite Hget in HR. case_bool_decide; [|done]. injection HR as <-. cbn [elems].
  specialize (Hs (nanFree_transitive _ _ Hnan)).
  apply SortedByLess_StronglySorted in Hs.
  intros i x y Hx Hy. apply lookup_take_Some in Hx as [Hx _].
  apply lookup_take_Some in Hy as [Hy _].
  pose proof (StronglySorted_lookup _ _ i (S i) _ _ Hs (Nat.lt_succ_diag_r i) Hx Hy) as Hxy.
  assert (Hn : ∀ k z, a' !! k = Some z → is_nan (Probability z) = false).
  { intros k z Hz. apply list_elem_of_lookup_2 in Hz. rewrite Hp in Hz.
    apply list_elem_of_lookup in Hz as [k' Hz]. apply pairs_lookup in Hz as [Hl Hz].
    apply (Hnan k'); [|done]. by apply lookup_lt_Some in Hl. }
  rewrite f32_ge_not_gt by eauto. unfold mayPrecede, before in Hxy. by rewrite Hxy.
Qed.

(** The theorem above at five labels and five probabilities without NaN. *)
Lemma C1_sorted_descending_witness :
  SortContract Sort ∧ nanFree labels5 probabilities5
  ∧ getTopFiveLabels Sort labels5 probabilities5 = Ret ranked5
  ∧ descending (elems ranked5).
Proof.
  split; [exact Sort_contract|]. split; [exact nanFree_probabilities5|].
  split; [reflexivity|].
  apply (C1_sorted_descending Sort labels5 probabilities5 ranked5);
    [exact Sort_contract|exact nanFree_probabilities5|reflexivity].
Defined.

(** C1, as stated, fails: with a NaN among five probabilities the ranker
    returns a result in which [R[0].Probability >= R[1].Probability] is
    false. *)
Lemma C1_counterexample :
  getTopFiveLabels Sort labels5 probabilitiesNaN = Ret rankedNaN
  ∧ ¬ descending (elems rankedNaN).
Proof.
  split; [reflexivity|]. intros H.
  specialize (H 0 (mkLabel "cat" S754_nan) (mkLabel "dog" f32_0_7) eq_refl eq_refl).
  discriminate H.
Qed.

(** The failure does not hang on the sorting algorithm: a list of two or
    more that holds a NaN is not descending, however it is ordered. *)
Lemma descending_no_nan (R : list Label) x :
  descending R → 2 ≤ length R → x ∈ R → is_nan (Probability x) = false.
Proof.
  intros Hd Hlen [k Hk]%list_elem_of_lookup.
  destruct (Probability x) eqn:Hx; try done.
  destruct (R !! S k) as [y|] eqn:Hy.
  - specialize (Hd k x y Hk Hy). by rewrite Hx, f32_ge_nan_l in Hd.
  - apply lookup_ge_None in Hy. apply lookup_lt_Some in Hk as Hlt.
    destruct k as [|k]; [lia|].
    destruct (lookup_lt_is_Some_2 R k) as [z Hz]; [lia|].
    specialize (Hd k z x Hz Hk). by rewrite Hx, f32_ge_nan_r in Hd.
Qed.

Lemma nan_result_not_descending sortSort :
  SortContract sortSort →
  ∃ R, getTopFiveLabels sortSort labels5 probabilitiesNaN = Ret R
       ∧ ¬ descending (elems R).
Proof.
  intros Hc.
  destruct (getTopFiveLabels_spec _ Hc labels5 probabilitiesNaN)
    as (a' & c & _ & Hp & _ & _ & Hget).
  rewrite bool_decide_true in Hget by (cbn; lia).
  eexists. split; [exact Hget|]. cbn [elems]. intros Hd.
  assert (Hlen : length a' = 5) by (by rewrite Hp).
  rewrite take_ge in Hd by lia.
  assert (Hin : mkLabel "cat" S754_nan ∈ a').
  { rewrite Hp. apply elem_of_cons. by left. }
  by pose proof (descending_no_nan a' _ Hd ltac:(lia) Hin).
Qed.


(** C3: with at least 5 probabilities and at least as many labels as
    probabilities, the ranker returns a result of length exactly 5. *)
Theorem C3_exactly_five sortSort labels probabilities :
  SortContract sortSort →
  5 ≤ length probabilities →
  length probabilities ≤ length labels →
  ∃ R, getTopFiveLabels sortSort labels probabilities = Ret R ∧ len R = 5.
Proof.
  intros Hc H5 Hle.
  destruct (getTopFiveLabels_spec _ Hc labels probabilities)
    as (a' & c & _ & Hp & _ & _ & Hget).
  rewrite Hget. rewrite bool_decide_true by (unfold pairCount; lia).
  eexists. split; [done|]. unfold len. cbn [elems].
  rewrite length_take, Hp, pairs_length. unfold pairCount. lia.
Qed.

(** The theorem above at five labels and five probabilities. *)
Lemma C3_exactly_five_witness :
  SortContract Sort ∧ 5 ≤ length probabilities5
  ∧ length probabilities5 ≤ length labels5
  ∧ ∃ R, getTopFiveLabels Sort labels5 probabilities5 = Ret R ∧ len R = 5.
Proof.
  split; [exact Sort_contract|]. split; [cbn; lia|]. split; [cbn; lia|].
  apply (C3_exactly_five Sort labels5 probabilities5); [exact Sort_contract|cbn; lia..].
Defined.

(** C4: the slice of 5 is within bounds, and the ranker returns, exactly
    when at least 5 pairs are available; with fewer pairs the ranker neither
    truncates nor returns an error: it panics, the bound 5 being beyond a
    capacity below 5. *)
Theorem C4_slice_bounds sortSort labels probabilities :
  SortContract sortSort →
  (∃ s, rankedPairs sortSort labels probabilities = Ret s
        ∧ (5 ≤ cap s ↔ 5 ≤ length labels `min` length probabilities))
  ∧ (returns (getTopFiveLabels sortSort labels probabilities)
     ↔ 5 ≤ length labels `min` length probabilities)
  ∧ (length labels `min` length probabilities < 5 →
     ∃ c, c < 5 ∧ getTopFiveLabels sortSort labels probabilities
                  = Panicked (SliceBoundsOutOfRange 5 c)).
Proof.
  intros Hc.
  destruct (getTopFiveLabels_spec _ Hc labels probabilities)
    as (a' & c & Hr & _ & _ & H5 & Hget).
  fold (pairCount labels probabilities). rewrite Hget. split; [by eexists|]. split.
  - case_bool_decide; split; try done; [by eexists|by intros [? ?]].
  - intros Hlt. rewrite bool_decide_false by lia. exists c. split; [lia|done].
Qed.

(** The theorem above at three pairs, where the ranker panics, and at five,
    where it returns. *)
Lemma C4_slice_bounds_witness :
  SortContract Sort
  ∧ (returns (getTopFiveLabels Sort labels3 probabilities3)
     ↔ 5 ≤ length labels3 `min` length probabilities3)
  ∧ (returns (getTopFiveLabels Sort labels5 probabilities5)
     ↔ 5 ≤ length labels5 `min` length probabilities5).
Proof.
  split; [exact Sort_contract|]. split.
  - apply (C4_slice_bounds Sort labels3 probabilities3 Sort_contract).
  - apply (C4_slice_bounds Sort labels5 probabilities5 Sort_contract).
Defined.

Lemma NegTransOn_TransitiveOrdering (a : Labels) : NegTransOn a → TransitiveOrdering a.
Proof.
  intros Hn. split; intros i j k (x & y & Hi & Hj & Hxy)%Less_Ret_inv
    (y' & z & Hj' & Hk & Hyz)%Less_Ret_inv; simplify_eq;
    rewrite (Less_lookup _ _ _ _ _ Hi Hk); f_equal.
  - by apply (before_trans x y z).
  - apply (Hn x y z); try done; by eapply list_elem_of_lookup_2.
Qed.

Lemma SortReversed_contract : SortContract SortReversed.
Proof.
  split.
  - intros a. destruct (sort_permutes _ Sort_contract (reverse a)) as (a' & Ha & Hp).
    exists a'. split; [done|]. by rewrite Hp, reverse_Permutation.
  - intros a a' Hto Ha. apply (sort_orders _ Sort_contract (reverse a)); [|done].
    apply NegTransOn_TransitiveOrdering.
    eapply NegTransOn_perm; [|by apply TransitiveOrdering_NegTransOn].
    by rewrite reverse_Permutation.
Qed.

(** C6, as amended: the ranker has no parameter k, it always slices 5.  On
    labels = [cat, dog, fish] and probabilities = [0.1, 0.7, 0.2] it sorts the
    three pairs into a list whose first two entries are {dog, 0.7} and
    {fish, 0.2}, and then panics on the slice of 5. *)
Theorem C6_three_pairs sortSort :
  SortContract sortSort →
  (∃ s, rankedPairs sortSort labels3 probabilities3 = Ret s
        ∧ take 2 (elems s) = [mkLabel "dog" f32_0_7; mkLabel "fish" f32_0_2])
  ∧ getTopFiveLabels sortSort labels3 probabilities3
    = Panicked (SliceBoundsOutOfRange 5 4).
Proof.
  intros Hc.
  destruct (rankedPairs_spec _ Hc labels3 probabilities3)
    as (a' & c & Hr & Hp & _ & Hs & (s & Hloop & -> & _)).
  assert (Hnt : noTies probabilities3).
  { intros i j p q Hij Hp' Hq.
    do 3 (destruct i as [|i]; [do 3 (destruct j as [|j]; [simplify_eq/=; try done; auto|]); done|]).
    done. }
  destruct (sort_permutes _ Sort_contract (pairs labels3 probabilities3)) as (b & Hb & Hpb).
  pose proof (noTies_transitive labels3 _ Hnt) as Hto.
  assert (a' = b) as ->.
  { apply (noTies_unique labels3 probabilities3); [done..|by apply Hs|].
    by apply (sort_orders _ Sort_contract (pairs labels3 probabilities3)). }
  injection Hb as <-.
  injection Hloop as <-. split; [by eexists|].
  unfold getTopFiveLabels. by rewrite Hr.
Qed.

(** The theorem above for the insertion sort run on the reversed slice. *)
Lemma C6_three_pairs_witness :
  SortContract SortReversed
  ∧ getTopFiveLabels SortReversed labels3 probabilities3
    = Panicked (SliceBoundsOutOfRange 5 4).
Proof.
  split; [exact SortReversed_contract|].
  apply (C6_three_pairs SortReversed SortReversed_contract).
Defined.

(** C6, as stated, fails: on the input of the claim the ranker returns no
    result at all, in particular not the two entries [{dog,0.7}, {fish,0.2}]. *)
Lemma C6_counterexample :
  getTopFiveLabels Sort labels3 probabilities3 = Panicked (SliceBoundsOutOfRange 5 4)
  ∧ ¬ ∃ R, getTopFiveLabels Sort labels3 probabilities3 = Ret R
           ∧ elems R = [mkLabel "dog" f32_0_7; mkLabel "fish" f32_0_2].
Proof. split; [reflexivity|]. by intros (R & HR & _). Qed.

(** Without NaN, no two equal is no two tied. *)
Lemma noTwoEqual_noTies probabilities :
  noTwoEqual probabilities →
  (∀ p, p ∈ probabilities → is_nan p = false) →
  noTies probabilities.
Proof.
  intros Hne Hnan i j p q Hij Hp Hq.
  pose proof (Hne i j p q Hij Hp Hq) as Heq.
  pose proof (Hnan p (list_elem_of_lookup_2 _ _ _ Hp)) as Hnp.
  pose proof (Hnan q (list_elem_of_lookup_2 _ _ _ Hq)) as Hnq.
  clear -Heq Hnp Hnq. f32_order; auto.
Qed.

Lemma noTies_noTwoEqual probabilities : noTies probabilities → noTwoEqual probabilities.
Proof.
  intros Hnt i j p q Hij Hp Hq.
  destruct (Hnt i j p q Hij Hp Hq) as [H|H]; clear -H; f32_order.
Qed.




(** With ties the two sorts order the result differently too: the condition
    of the claim cannot be dropped. *)
Lemma ties_order_differently :
  getTopFiveLabels Sort labels5 probabilitiesTied
  ≠ getTopFiveLabels SortReversed labels5 probabilitiesTied.
Proof. vm_compute. discriminate. Qed.

(** C9: every entry of the ranker's result is the pair of [labels[i]] and
    [probabilities[i]] for one index [i] below
    [min(len(labels), len(probabilities))]. *)
Theorem C9_pairing_preserved sortSort labels probabilities R :
  SortContract sortSort →
  getTopFiveLabels sortSort labels probabilities = Ret R →
  ∀ x, x ∈ elems R →
    ∃ i, i < length labels `min` length probabilities
         ∧ labels !! i = Some (Label_ x)
         ∧ probabilities !! i = Some (Probability x).
Proof.
  intros Hc HR x Hx.
  destruct (getTopFiveLabels_spec _ Hc labels probabilities)
    as (a' & c & _ & Hp & _ & _ & Hget).
  rewrite Hget in HR. case_bool_decide; [|done]. injection HR as <-. cbn [elems] in Hx.
  apply elem_of_take in Hx as (k & Hk & _). apply list_elem_of_lookup_2 in Hk.
  rewrite Hp in Hk. apply list_elem_of_lookup in Hk as [i Hi].
  exists i. split; [|by apply pairs_lookup].
  apply lookup_lt_Some in Hi. by rewrite pairs_length in Hi.
Qed.

(** The theorem above at five labels and five probabilities. *)
Lemma C9_pairing_preserved_witness :
  SortContract Sort
  ∧ getTopFiveLabels Sort labels5 probabilities5 = Ret ranked5
  ∧ ∀ x, x ∈ elems ranked5 →
      ∃ i, i < length labels5 `min` length probabilities5
           ∧ labels5 !! i = Some (Label_ x)
           ∧ probabilities5 !! i = Some (Probability x).
Proof.
  split; [exact Sort_contract|]. split; [reflexivity|].
  apply (C9_pairing_preserved Sort labels5 probabilities5 ranked5 Sort_contract).
  reflexivity.
Defined.

(** * The claim on the preprocessing graph *)

Section GraphFacts.
Import tensorflow.

Lemma runBuild_bind {A B} (m : op.Build A) (f : A → op.Build B) st :
  op.runBuild (m ≫= f) st
  = let '(a, st') := op.runBuild m st in op.runBuild (f a) st'.
Proof. done. Qed.

(** Backwards: a scope without error after a step had none before, and
    the step added its operation. *)
Lemma Scope_AddOperation_ok rt s args st o st' :
  op.runBuild (op.Scope_AddOperation rt s args) st = (o, st') →
  op.err st' = None →
  op.err st = None ∧ ∃ name,
    o = Some (length (op.graph st))
    ∧ op.graph st' = op.graph st ++ [mkOpSpec (Type_ args) name (Input args) (Attrs args)].
Proof.
  unfold op.Scope_AddOperation, AddOperation. cbn [op.runBuild].
  destruct (op.err st) eqn:Herr.
  { intros [= <- <-] Hnone. congruence. }
  cbn [Type_ Name Input Attrs].
  match goal with |- context [AddOperation_err rt ?g ?a] =>
    destruct (AddOperation_err rt g a) end.
  { by intros [= <- <-]. }
  intros [= <- <-] _. split; [done|]. by eexists.
Qed.

Lemma wrapper_ok rt s args st o st' :
  op.runBuild (op.wrapper rt s args) st = (o, st') →
  op.err st' = None →
  op.err st = None ∧ ∃ name,
    o = outputOf (length (op.graph st))
    ∧ op.graph st' = op.graph st ++ [mkOpSpec (Type_ args) name (Input args) (Attrs args)].
Proof.
  unfold op.wrapper. cbn [op.runBuild].
  destruct (op.err st) eqn:Herr.
  { intros [= <- <-] Hnone. congruence. }
  destruct (op.runBuild (op.Scope_AddOperation rt s args) st) as [o' st''] eqn:Hadd.
  intros [= <- <-] Hnone.
  destruct (Scope_AddOperation_ok _ _ _ _ _ _ Hadd Hnone) as (_ & name & -> & Hg).
  split; [done|]. by exists name.
Qed.

Lemma Const_ok rt s v st o st' :
  op.runBuild (op.Const rt s v) st = (o, st') →
  op.err st' = None →
  op.err st = None ∧ ∃ name,
    o = outputOf (length (op.graph st))
    ∧ op.graph st' = op.graph st ++
        [mkOpSpec "Const" name []
           {[ "dtype" := AttrType (Tensor_DataType (mkTensor v));
              "value" := AttrTensor (mkTensor v) ]}].
Proof.
  unfold op.Const, NewTensor. cbn [op.runBuild].
  destruct (op.err st) eqn:Herr.
  { intros [= <- <-] Hnone. congruence. }
  destruct (NewTensor_err rt v).
  { by intros [= <- <-]. }
  match goal with |- context [op.runBuild ?m st] =>
    destruct (op.runBuild m st) as [o' st''] eqn:Hadd end.
  intros [= <- <-] Hnone.
  destruct (Scope_AddOperation_ok _ _ _ _ _ _ Hadd Hnone) as (_ & name & -> & Hg).
  split; [done|]. by exists name.
Qed.

(** Forwards: an accepting library lets every step through. *)
Lemma Scope_AddOperation_accepted rt s args st :
  accepting rt → op.err st = None →
  ∃ st', op.runBuild (op.Scope_AddOperation rt s args) st
         = (Some (length (op.graph st)), st')
         ∧ op.err st' = None.
Proof.
  intros [_ Hadd] Herr. unfold op.Scope_AddOperation, AddOperation.
  cbn [op.runBuild]. rewrite Herr, Hadd. by eexists.
Qed.

Lemma wrapper_accepted rt s args st :
  accepting rt → op.err st = None →
  ∃ o st', op.runBuild (op.wrapper rt s args) st = (o, st') ∧ op.err st' = None.
Proof.
  intros Hacc Herr.
  destruct (Scope_AddOperation_accepted rt s args st Hacc Herr) as (st' & Hrun & Herr').
  unfold op.wrapper. cbn [op.runBuild]. rewrite Herr, Hrun. by do 2 eexists.
Qed.

Lemma Const_accepted rt s v st :
  accepting rt → op.err st = None →
  ∃ o st', op.runBuild (op.Const rt s v) st = (o, st') ∧ op.err st' = None.
Proof.
  intros Hacc Herr. unfold op.Const, NewTensor. cbn [op.runBuild].
  rewrite Herr, (proj1 Hacc).
  match goal with |- context [op.Scope_AddOperation rt ?s' ?a] =>
    destruct (Scope_AddOperation_accepted rt s' a st Hacc Herr) as (st' & -> & Herr') end.
  by do 2 eexists.
Qed.

(** One step of the construction: name its output and its state. *)
Ltac build_step H :=
  rewrite runBuild_bind in H;
  match type of H with
  | context [op.runBuild ?m ?st] =>
      lazymatch m with
      | mbind _ _ => fail
      | _ => let o := fresh "o" in
             let st' := fresh "st" in
             let E := fresh "E" in
             destruct (op.runBuild m st) as [o st'] eqn:E
      end
  end.

Ltac accept_step Hacc :=
  rewrite runBuild_bind;
  let o := fresh "o" in
  let st' := fresh "st" in
  let E := fresh "E" in
  let Herr' := fresh "Herr" in
  lazymatch goal with
  | Herr : op.err ?st = None |- context [op.runBuild (op.wrapper ?rt ?s ?args) ?st] =>
      destruct (wrapper_accepted rt s args st Hacc Herr) as (o & st' & E & Herr');
      rewrite E; clear E Herr
  | Herr : op.err ?st = None |- context [op.runBuild (op.Const ?rt ?s ?v) ?st] =>
      destruct (Const_accepted rt s v st Hacc Herr) as (o & st' & E & Herr');
      rewrite E; clear E Herr
  end.

Lemma getNormalizedGraph_accepted w :
  accepting (tf w) → ∃ g input output, getNormalizedGraph w = inr (g, input, output).
Proof.
  intros Hacc. unfold getNormalizedGraph, op.NewScope.
  assert (Herr : op.err (op.mkShared [] None) = None) by done.
  revert Herr. generalize (op.mkShared [] None). intros st Herr.
  unfold op.Placeholder, op.DecodeJpeg, op.Cast, op.ExpandDims, op.ResizeBilinear, op.Sub.
  do 9 accept_step Hacc.
  cbn [mret op.Build_ret op.runBuild]. unfold op.Finalize.
  match goal with Herr : op.err ?st = None |- _ => rewrite Herr end.
  by do 3 eexists.
Qed.

Lemma getNormalizedGraph_ok w g input output :
  getNormalizedGraph w = inr (g, input, output) →
  length g = 9
  ∧ input = outputOf 0
  ∧ operationAt g 0 "Placeholder" [] {[ "dtype" := AttrType String ]}
  ∧ operationAt g 1 "DecodeJpeg" [outputOf 0] {[ "channels" := AttrInt 3 ]}
  ∧ operationAt g 2 "Cast" [outputOf 1] {[ "DstT" := AttrType Float ]}
  ∧ constantAt g 3 (OfInt32 0)
  ∧ operationAt g 4 "ExpandDims" [outputOf 2; outputOf 3] ∅
  ∧ constantAt g 5 (OfInt32s [224; 224]%Z)
  ∧ operationAt g 6 "ResizeBilinear" [outputOf 4; outputOf 5] ∅
  ∧ constantAt g 7 (OfFloat32 f32_117)
  ∧ operationAt g 8 "Sub" [outputOf 6; outputOf 7] ∅
  ∧ output = outputOf 8.
Proof.
  unfold getNormalizedGraph, op.NewScope.
  match goal with |- context [op.runBuild ?m ?st] =>
    destruct (op.runBuild m st) as [[input' output'] st9] eqn:H end.
  unfold op.Finalize. destruct (op.err st9) eqn:Herr; [done|].
  intros [= <- <- <-].
  do 9 build_step H.
  injection H as <- <- <-.
  unfold op.Sub in E7. apply wrapper_ok in E7 as (Herr6 & n9 & -> & Hg9); [|done].
  apply Const_ok in E6 as (Herr5 & n8 & -> & Hg8); [|done].
  unfold op.ResizeBilinear in E5. apply wrapper_ok in E5 as (Herr4 & n7 & -> & Hg7); [|done].
  apply Const_ok in E4 as (Herr3 & n6 & -> & Hg6); [|done].
  unfold op.ExpandDims in E3. apply wrapper_ok in E3 as (Herr2 & n5 & -> & Hg5); [|done].
  apply Const_ok in E2 as (Herr1 & n4 & -> & Hg4); [|done].
  unfold op.Cast in E1. apply wrapper_ok in E1 as (Herr0 & n3 & -> & Hg3); [|done].
  unfold op.DecodeJpeg in E0. apply wrapper_ok in E0 as (Herr' & n2 & -> & Hg2); [|done].
  unfold op.Placeholder in E. apply wrapper_ok in E as (_ & n1 & -> & Hg1); [|done].
  cbn [op.graph app Type_ Input Attrs] in *.
  rewrite Hg1 in *. cbn [app length] in *.
  rewrite Hg2 in *. cbn [app length] in *.
  rewrite Hg3 in *. cbn [app length] in *.
  rewrite Hg4 in *. cbn [app length] in *.
  rewrite Hg5 in *. cbn [app length] in *.
  rewrite Hg6 in *. cbn [app length] in *.
  rewrite Hg7 in *. cbn [app length] in *.
  rewrite Hg8 in *. cbn [app length] in *.
  rewrite Hg9 in *. cbn [app length] in *.
  unfold constantAt, operationAt.
  repeat split; try reflexivity; eexists; (split; [reflexivity|]); done.
Qed.

(** C5: the builder constructs the chain, in this order and each step on
    the output of the step before: a placeholder of type string (the
    tensor bound to it is a scalar string), the JPEG decoding with 3
    channels, the cast to float, the new dimension at position 0, the
    bilinear resizing to 224 by 224, the subtraction of the constant 117;
    the output port of the graph is the output of that subtraction.  The
    build succeeds when the library accepts every operation, and whenever
    it succeeds the graph is this one. *)
Theorem C5_graph_chain w :
  (accepting (tf w) → ∃ g input output, getNormalizedGraph w = inr (g, input, output))
  ∧ (∀ g input output,
       getNormalizedGraph w = inr (g, input, output) →
       length g = 9
       ∧ input = outputOf 0
       ∧ operationAt g 0 "Placeholder" [] {[ "dtype" := AttrType String ]}
       ∧ operationAt g 1 "DecodeJpeg" [outputOf 0] {[ "channels" := AttrInt 3 ]}
       ∧ operationAt g 2 "Cast" [outputOf 1] {[ "DstT" := AttrType Float ]}
       ∧ constantAt g 3 (OfInt32 0)
       ∧ operationAt g 4 "ExpandDims" [outputOf 2; outputOf 3] ∅
       ∧ constantAt g 5 (OfInt32s [224; 224]%Z)
       ∧ operationAt g 6 "ResizeBilinear" [outputOf 4; outputOf 5] ∅
       ∧ constantAt g 7 (OfFloat32 f32_117)
       ∧ operationAt g 8 "Sub" [outputOf 6; outputOf 7] ∅
       ∧ output = outputOf 8)
  ∧ (∀ bytes tensor,
       NewTensor (tf w) (OfString bytes) = inr tensor →
       Tensor_DataType tensor = String ∧ Tensor_Shape tensor = []).
Proof.
  split; [apply getNormalizedGraph_accepted|].
  split; [apply getNormalizedGraph_ok|].
  intros bytes tensor. unfold NewTensor.
  destruct (NewTensor_err (tf w) _); [done|]. by intros [= <-].
Qed.

(** The theorem above with a library that accepts everything. *)
Lemma C5_graph_chain_witness :
  accepting (tf exampleWorld)
  ∧ ∃ g input output, getNormalizedGraph exampleWorld = inr (g, input, output).
Proof.
  assert (Hacc : accepting (tf exampleWorld)) by (split; reflexivity).
  split; [exact Hacc|]. by apply (C5_graph_chain exampleWorld).
Defined.
End GraphFacts.

(** * The claims on the pipeline *)

Section PipelineFacts.
Import tensorflow.

Lemma runProc_bind {A B} (m : proc A) (f : A → proc B) out :
  runProc (m ≫= f) out
  = match runProc m out with
    | (out', inr a) => runProc (f a) out'
    | (out', inl s) => (out', inl s)
    end.
Proof. done. Qed.

Lemma main_start sortSort w url :
  Args w !! 1 = Some url →
  run sortSort w
  = runProc
      match http_Get w url with
      | inl e => log_Fatalf "unable to get image from url: %v" (Some e)
      | inr response =>
      loaded ← lift (loadModel w);
      match loaded with
      | (_, _, Some err) => log_Fatalf "unable to load model: %v" (Some err)
      | (modelGraph, labels, None) =>
      normalized ← lift (normalizeImage w (Body response));
      match normalized with
      | inl err => log_Fatalf "unable to make a tensor from image: %v" (Some err)
      | inr tensor =>
      modelGraph ← lift (deref modelGraph);
      match tensorflow.NewSession (tf w) modelGraph with
      | inl err => log_Fatalf "could not init session: %v" (Some err)
      | inr session =>
      ran ← lift (tensorflow.Run (tf w) session
              [(tensorflow.Operation_Output (tensorflow.Operation modelGraph "input") 0, tensor)]
              [tensorflow.Operation_Output (tensorflow.Operation modelGraph "output") 0]);
      match ran with
      | inl err => log_Fatalf "could not run inference: %v" (Some err)
      | inr output =>
          output0 ← lift (index output 0);
          match tensorflow.Value output0 with
          | tensorflow.OfFloat32ss m =>
              probabilities ← lift (index m 0);
              res ← lift (getTopFiveLabels sortSort labels probabilities);
              printLabels (elems res)
          | _ => lift (Panicked InterfaceConversion)
          end
      end end end end end
      [PrintUrl url].
Proof.
  intros Hurl. unfold run, main.
  rewrite bool_decide_false by (apply lookup_lt_Some in Hurl; lia).
  rewrite runProc_bind. unfold index. rewrite Hurl. cbn [lift runProc].
  by rewrite runProc_bind.
Qed.

Lemma normalizeImage_unfold w body :
  normalizeImage w body
  = match tensorflow.NewTensor (tf w) (tensorflow.OfString (io_Copy "" body).1) with
    | inl err => Ret (inl err)
    | inr tensor =>
        match getNormalizedGraph w with
        | inl err => Ret (inl err)
        | inr (graph, input, output) =>
            match tensorflow.NewSession (tf w) graph with
            | inl err => Ret (inl err)
            | inr session =>
                ran ← tensorflow.Run (tf w) session [(input, tensor)] [output];
                match ran with
                | inl err => Ret (inl err)
                | inr normalized => t ← index normalized 0; mret (inr t)
                end
            end
        end
    end.
Proof. unfold normalizeImage. by destruct (io_Copy "" body). Qed.

(** What [main] does once the model is loaded without error. *)
Lemma main_loaded sortSort w url response modelGraph labels :
  Args w !! 1 = Some url →
  http_Get w url = inr response →
  loadModel w = Ret (modelGraph, labels, None) →
  run sortSort w
  = runProc
      (normalized ← lift (normalizeImage w (Body response));
       match normalized with
       | inl err => log_Fatalf "unable to make a tensor from image: %v" (Some err)
       | inr tensor =>
       modelGraph ← lift (deref modelGraph);
       match tensorflow.NewSession (tf w) modelGraph with
       | inl err => log_Fatalf "could not init session: %v" (Some err)
       | inr session =>
       ran ← lift (tensorflow.Run (tf w) session
               [(tensorflow.Operation_Output (tensorflow.Operation modelGraph "input") 0, tensor)]
               [tensorflow.Operation_Output (tensorflow.Operation modelGraph "output") 0]);
       match ran with
       | inl err => log_Fatalf "could not run inference: %v" (Some err)
       | inr output =>
           output0 ← lift (index output 0);
           match tensorflow.Value output0 with
           | tensorflow.OfFloat32ss m =>
               probabilities ← lift (index m 0);
               res ← lift (getTopFiveLabels sortSort labels probabilities);
               printLabels (elems res)
           | _ => lift (Panicked InterfaceConversion)
           end
       end end end)
      [PrintUrl url].
Proof.
  intros Hurl Hget Hload.
  rewrite (main_start _ _ _ Hurl), Hget, runProc_bind, Hload. done.
Qed.

(** C8, as amended: every error that [main] or [normalizeImage] checks
    ends the run.  When one of the eight checked calls returns an error,
    the calls checked before it having returned none (the fetch by
    [http.Get], the model load, the input tensor, the build of the
    preprocessing graph, the preprocessing session, the preprocessing run,
    the creation of the session, the classification run), the process ends
    in [log.Fatalf] with that error and the format of the step of [main]
    the call belongs to, and its output holds the line of the URL and no
    label.  The format tells the five steps of [main] apart, and no more:
    the four calls inside [normalizeImage] share one. *)
Theorem C8_errors_abort sortSort w url s e :
  Args w !! 1 = Some url →
  stageFails w url s e →
  run sortSort w = ([PrintUrl url], inl (Fatalf (stageFormat s) (Some e)))
  ∧ ∀ s', stageFormat s' = stageFormat s ↔ stageStep s' = stageStep s.
Proof.
  intros Hurl Hfail. split; [|intros s'; by destruct s, s'].
  destruct Hfail as [e Hget
    |response modelGraph labels e Hget Hload
    |response modelGraph labels e Hget Hload Hten
    |response modelGraph labels tensor e Hget Hload Hten Hgraph
    |response modelGraph labels tensor graph input output e Hget Hload Hten Hgraph Hses
    |response modelGraph labels tensor graph input output session e
       Hget Hload Hten Hgraph Hses Hrun
    |response modelGraph labels tensor e Hget Hload Hnorm Hses
    |response modelGraph labels tensor session e Hget Hload Hnorm Hses Hrun].
  - by rewrite (main_start _ _ _ Hurl), Hget.
  - by rewrite (main_start _ _ _ Hurl), Hget, runProc_bind, Hload.
  - rewrite (main_loaded _ _ _ _ _ _ Hurl Hget Hload), runProc_bind, normalizeImage_unfold.
    unfold imageBytes in Hten. by rewrite Hten.
  - rewrite (main_loaded _ _ _ _ _ _ Hurl Hget Hload), runProc_bind, normalizeImage_unfold.
    unfold imageBytes in Hten. by rewrite Hten, Hgraph.
  - rewrite (main_loaded _ _ _ _ _ _ Hurl Hget Hload), runProc_bind, normalizeImage_unfold.
    unfold imageBytes in Hten. by rewrite Hten, Hgraph, Hses.
  - rewrite (main_loaded _ _ _ _ _ _ Hurl Hget Hload), runProc_bind, normalizeImage_unfold.
    unfold imageBytes in Hten. by rewrite Hten, Hgraph, Hses, Hrun.
  - rewrite (main_loaded _ _ _ _ _ _ Hurl Hget Hload), runProc_bind, Hnorm.
    cbn [lift runProc]. rewrite runProc_bind. cbn [deref lift runProc]. by rewrite Hses.
  - rewrite (main_loaded _ _ _ _ _ _ Hurl Hget Hload), runProc_bind, Hnorm.
    cbn [lift runProc]. rewrite runProc_bind. cbn [deref lift runProc].
    rewrite Hses, runProc_bind, Hrun. done.
Qed.

Lemma classificationRun_fails_exampleWorld :
  stageFails exampleWorld exampleUrl ClassificationRun (Err "incompatible shapes").
Proof.
  eapply (ClassificationRun_fails exampleWorld exampleUrl
            (mkResponse (mkReader ["JFIF"] None)) modelGraph2 ["cat"; "dog"]
            (mkTensor (OfOther Float [1; 224; 224; 3]%Z)) (mkSession modelGraph2));
    vm_compute; reflexivity.
Defined.

(** The theorem above in a world whose model graph has the two operations
    and whose classification run returns an error. *)
Lemma C8_errors_abort_witness :
  Args exampleWorld !! 1 = Some exampleUrl
  ∧ stageFails exampleWorld exampleUrl ClassificationRun (Err "incompatible shapes")
  ∧ run Sort exampleWorld
    = ([PrintUrl exampleUrl],
       inl (Fatalf "could not run inference: %v" (Some (Err "incompatible shapes")))).
Proof.
  split; [reflexivity|]. split; [exact classificationRun_fails_exampleWorld|].
  apply (C8_errors_abort Sort exampleWorld exampleUrl ClassificationRun _ eq_refl
           classificationRun_fails_exampleWorld).
Defined.

(** C8, as stated, fails twice.  The reading of the body belongs to the
    fetch of the image and its error is recovered on the spot: in a world
    where the reading breaks off, [io.Copy] returns the error and the run
    goes on to print five labels.  And the error of the abort does not tell
    the stage: a preprocessing that fails at the creation of its session and
    one that fails at its run end the process the same way. *)
Lemma C8_counterexample :
  (http_Get truncatedWorld exampleUrl = inr truncatedResponse
   ∧ (io_Copy "" (Body truncatedResponse)).2.2 = Some (Err "unexpected EOF")
   ∧ run Sort truncatedWorld
     = (PrintUrl exampleUrl :: map PrintLabel (elems ranked5), inr tt))
  ∧ (stageFails (preprocessFailWorld true) exampleUrl PreprocessSession
       (Err "resource exhausted")
     ∧ stageFails (preprocessFailWorld false) exampleUrl PreprocessRun
         (Err "resource exhausted")
     ∧ run Sort (preprocessFailWorld true) = run Sort (preprocessFailWorld false)).
Proof.
  split.
  - split; [reflexivity|]. split; [reflexivity|]. by vm_compute.
  - split; [|split; [|by vm_compute]].
    + destruct (getNormalizedGraph (preprocessFailWorld true))
        as [|[[g input] output]] eqn:Hg; [by vm_compute in Hg|].
      pose proof (getNormalizedGraph_ok _ _ _ _ Hg) as (Hlen & _).
      eapply (PreprocessSession_fails _ _ (mkResponse (mkReader ["JFIF"] None))
                (Some modelGraph2) labels5 (mkTensor (OfString "JFIF")) g input output);
        [reflexivity|by vm_compute|reflexivity|exact Hg|].
      unfold NewSession. cbn. by rewrite bool_decide_true.
    + destruct (getNormalizedGraph (preprocessFailWorld false))
        as [|[[g input] output]] eqn:Hg; [by vm_compute in Hg|].
      pose proof (getNormalizedGraph_ok _ _ _ _ Hg)
        as (Hlen & -> & _ & _ & _ & _ & _ & _ & _ & _ & _ & ->).
      eapply (PreprocessRun_fails _ _ (mkResponse (mkReader ["JFIF"] None))
                (Some modelGraph2) labels5 (mkTensor (OfString "JFIF")) g
                (outputOf 0) (outputOf 8) (mkSession g));
        [reflexivity|by vm_compute|reflexivity|exact Hg| |].
      * unfold NewSession. cbn. by rewrite bool_decide_false by (intros [_ ?]; done).
      * unfold Run. cbn. by rewrite bool_decide_true.
Qed.

Lemma string_app_nil_r (s : string) : s +:+ "" = s.
Proof.
  induction s as [|a s IH]; [done|].
  unfold String.append; fold String.append. by rewrite IH.
Qed.

Lemma string_app_assoc (s1 s2 s3 : string) : (s1 +:+ s2) +:+ s3 = s1 +:+ s2 +:+ s3.
Proof.
  induction s1 as [|a s1 IH]; [done|].
  unfold String.append; fold String.append. by rewrite IH.
Qed.

Lemma copyReads_app rs : ∀ buf, copyReads buf rs = buf +:+ foldr String.append "" rs.
Proof.
  induction rs as [|r rs IH]; intros buf; simpl.
  - by rewrite string_app_nil_r.
  - by rewrite IH, string_app_assoc.
Qed.

Lemma copyReads_empty rs : copyReads "" rs = foldr String.append "" rs.
Proof. apply (copyReads_app rs ""). Qed.

(** C10: [normalizeImage] drops the error of the copy.  On a body whose
    reads end in the error [e], [io.Copy] reports [e] and has copied the
    bytes read before it (none, when no read succeeded); [normalizeImage]
    returns what it returns on a body that ends in [io.EOF] after the same
    reads, having gone on to build the tensor from the bytes copied: it
    returns the error of that tensor, if any, and a tensor built holds
    those bytes. *)
Theorem C10_copy_error_dropped w rs e :
  (io_Copy "" (mkReader rs (Some e))).2.2 = Some e
  ∧ (io_Copy "" (mkReader rs (Some e))).1 = foldr String.append "" rs
  ∧ normalizeImage w (mkReader rs (Some e)) = normalizeImage w (mkReader rs None)
  ∧ (∀ e', tensorflow.NewTensor (tf w) (OfString (foldr String.append "" rs)) = inl e' →
       normalizeImage w (mkReader rs (Some e)) = Ret (inl e'))
  ∧ (∀ tensor, tensorflow.NewTensor (tf w) (OfString (foldr String.append "" rs)) = inr tensor →
       Value tensor = OfString (foldr String.append "" rs)).
Proof.
  split; [done|]. split; [apply copyReads_empty|]. split; [done|]. split.
  - intros e' He'. rewrite normalizeImage_unfold.
    unfold io_Copy. cbn [reads fst]. by rewrite copyReads_empty, He'.
  - unfold NewTensor. intros tensor. destruct (NewTensor_err (tf w) _); [done|].
    by intros [= <-].
Qed.
End PipelineFacts.

(** * Further properties of the ranker *)

(** ** The methods of Labels *)

Lemma swap_head_perm (t : Labels) : ∀ j h y,
  t !! j = Some y → y :: <[j:=h]> t ≡ₚ h :: t.
Proof.
  induction t as [|z t IH]; intros j h y Hy; [done|].
  destruct j as [|j]; simplify_eq/=.
  - apply Permutation_swap.
  - rewrite (Permutation_swap z y), (IH j h y Hy). apply Permutation_swap.
Qed.

Lemma swap_perm (a : Labels) : ∀ i j x y,
  a !! i = Some x → a !! j = Some y → <[j:=x]> (<[i:=y]> a) ≡ₚ a.
Proof.
  induction a as [|h t IH]; intros i j x y Hi Hj; [done|].
  destruct i as [|i], j as [|j]; simplify_eq/=.
  - done.
  - by apply swap_head_perm.
  - by apply swap_head_perm.
  - f_equiv. by apply IH.
Qed.

(** X1: [Swap] returns exactly when both indices are in range; it then
    exchanges the two elements, leaves every other position and the length
    as they were, and a second [Swap] of the same indices restores the
    slice. *)
Theorem X1_Swap_exchanges (a : Labels) (i j : nat) :
  (returns (Swap a i j) ↔ i < length a ∧ j < length a)
  ∧ ∀ a', Swap a i j = Ret a' →
      length a' = length a
      ∧ a' !! i = a !! j
      ∧ a' !! j = a !! i
      ∧ (∀ k, k ≠ i → k ≠ j → a' !! k = a !! k)
      ∧ a' ≡ₚ a
      ∧ Swap a' i j = Ret a.
Proof.
  assert (Hinv : ∀ a', Swap a i j = Ret a' →
            ∃ x y, a !! i = Some x ∧ a !! j = Some y ∧ a' = <[j:=x]> (<[i:=y]> a)).
  { intros a'. cbn. unfold Labels_Swap, index.
    destruct (a !! i) as [x|]; [|done]. destruct (a !! j) as [y|]; [|done].
    intros [= <-]. by exists x, y. }
  split.
  - split.
    + intros [a' (x & y & Hi & Hj & _)%Hinv].
      split; by eapply lookup_lt_Some.
    + intros [[x Hi]%lookup_lt_is_Some_2 [y Hj]%lookup_lt_is_Some_2].
      eexists. by apply Swap_lookup.
  - intros a' (x & y & Hi & Hj & ->)%Hinv.
    pose proof (lookup_lt_Some _ _ _ Hi) as Hli.
    pose proof (lookup_lt_Some _ _ _ Hj) as Hlj.
    assert (Hj' : (<[j:=x]> (<[i:=y]> a)) !! j = Some x).
    { apply list_lookup_insert_eq. by rewrite length_insert. }
    assert (Hi' : (<[j:=x]> (<[i:=y]> a)) !! i = Some y).
    { destruct (decide (i = j)) as [->|Hne].
      - rewrite Hj'. congruence.
      - rewrite list_lookup_insert_ne by done. by apply list_lookup_insert_eq. }
    split; [by rewrite !length_insert|]. split; [by rewrite Hi', Hj|].
    split; [by rewrite Hj', Hi|]. split.
    { intros k Hki Hkj. by rewrite !list_lookup_insert_ne. }
    split; [by apply swap_perm|].
    rewrite (Swap_lookup _ _ _ _ _ Hi' Hj'). f_equal.
    apply list_eq. intros k.
    destruct (decide (k = j)) as [->|Hkj].
    { rewrite list_lookup_insert_eq; [done|]. by rewrite !length_insert. }
    rewrite list_lookup_insert_ne by done.
    destruct (decide (k = i)) as [->|Hki].
    { rewrite list_lookup_insert_eq; [done|]. by rewrite !length_insert. }
    by rewrite !list_lookup_insert_ne.
Qed.

(** X2: [Less] returns exactly when both indices are in range, and on every
    slice, NaN or not, it is a strict order: never true of an element and
    itself, never true both ways, and transitive. *)
Theorem X2_Less_strict_order (a : Labels) :
  (∀ i j, returns (Less a i j) ↔ i < length a ∧ j < length a)
  ∧ (∀ i, Less a i i ≠ Ret true)
  ∧ (∀ i j, Less a i j = Ret true → Less a j i = Ret false)
  ∧ (∀ i j k, Less a i j = Ret true → Less a j k = Ret true → Less a i k = Ret true).
Proof.
  split; [|split; [|split]].
  - intros i j. split.
    + intros [b (x & y & Hi & Hj & _)%Less_Ret_inv]. split; by eapply lookup_lt_Some.
    + intros [[x Hi]%lookup_lt_is_Some_2 [y Hj]%lookup_lt_is_Some_2].
      eexists. by apply Less_lookup.
  - intros i (x & y & Hi & Hj & Hb)%Less_Ret_inv. simplify_eq.
    by rewrite before_irrefl in Hb.
  - intros i j (x & y & Hi & Hj & Hb)%Less_Ret_inv.
    rewrite (Less_lookup _ _ _ _ _ Hj Hi). f_equal. by apply before_asym.
  - intros i j k (x & y & Hi & Hj & Hxy)%Less_Ret_inv
      (y' & z & Hj' & Hk & Hyz)%Less_Ret_inv. simplify_eq.
    rewrite (Less_lookup _ _ _ _ _ Hi Hk). f_equal. by apply (before_trans x y z).
Qed.

Lemma f32_gt_nan (p q : float32) :
  is_nan p = true → f32_gt q p = false ∧ f32_gt p q = false.
Proof. intros H. destruct p; try done. split; f32_order. Qed.

(** X3: [Less] is the transitive ordering package [sort] asks for exactly
    when the slice holds no NaN, or no element's probability exceeds
    another's. *)
Theorem X3_Less_transitive_ordering (a : Labels) :
  TransitiveOrdering a ↔
    (∀ x, x ∈ a → is_nan (Probability x) = false)
    ∨ (∀ x y, x ∈ a → y ∈ a → before x y = false).
Proof.
  split.
  - intros Hn%TransitiveOrdering_NegTransOn.
    destruct (decide (Forall (λ x, is_nan (Probability x) = false) a)) as [Hall|Hex].
    { left. by apply Forall_forall. }
    right. apply not_Forall_Exists in Hex; [|apply _].
    apply Exists_exists in Hex as (n & Hin & Hnan).
    apply not_false_is_true in Hnan.
    intros x y Hx Hy. apply (Hn x n y); try done; unfold before.
    + by apply (f32_gt_nan (Probability n) (Probability x)).
    + by apply (f32_gt_nan (Probability n) (Probability y)).
  - intros [Hnan|Hflat].
    + apply TransitiveOrdering_intro. intros i j x y _ _ Hy _.
      apply Hnan. by eapply list_elem_of_lookup_2.
    + apply NegTransOn_TransitiveOrdering. intros x y z Hx Hy Hz _ _. by apply Hflat.
Qed.

(** ** What the ranker keeps and what it leaves *)

Lemma nanFree_probabilities6 : nanFree labels6 probabilities6.
Proof.
  intros i p _ Hp. apply list_elem_of_lookup_2 in Hp.
  unfold probabilities6 in Hp. rewrite !elem_of_cons, elem_of_nil in Hp.
  by destruct Hp as [->|[->|[->|[->|[->|[->|[]]]]]]].
Defined.

(** X4: the five entries returned are five greatest: without a NaN among
    the pairs, the pairs split into the result and the rest, and each
    probability of the result is at least each probability of the rest. *)
Theorem X4_top_five sortSort labels probabilities R :
  SortContract sortSort →
  nanFree labels probabilities →
  getTopFiveLabels sortSort labels probabilities = Ret R →
  ∃ rest, elems R ++ rest ≡ₚ pairs labels probabilities
    ∧ ∀ x y, x ∈ elems R → y ∈ rest →
        f32_ge (Probability x) (Probability y) = true.
Proof.
  intros Hc Hnan HR.
  destruct (getTopFiveLabels_spec _ Hc labels probabilities)
    as (a' & c & _ & Hp & Hs & _ & Hget).
  rewrite Hget in HR. case_bool_decide; [|done]. injection HR as <-. cbn [elems].
  exists (drop 5 a'). split; [by rewrite take_drop|].
  specialize (Hs (nanFree_transitive _ _ Hnan)).
  apply SortedByLess_StronglySorted in Hs. rewrite <-(take_drop 5 a') in Hs.
  intros x y Hx Hy.
  pose proof (StronglySorted_app_1_elem_of _ _ _ _ _ Hs Hx Hy) as Hxy.
  assert (Hn : ∀ z, z ∈ a' → is_nan (Probability z) = false).
  { intros z Hz. rewrite Hp in Hz.
    apply list_elem_of_lookup in Hz as [k Hz]. apply pairs_lookup in Hz as [Hl Hz].
    apply (Hnan k); [|done]. by apply lookup_lt_Some in Hl. }
  rewrite f32_ge_not_gt.
  - unfold mayPrecede, before in Hxy. by rewrite Hxy.
  - apply Hn. rewrite <-(take_drop 5 a'), elem_of_app. by left.
  - apply Hn. rewrite <-(take_drop 5 a'), elem_of_app. by right.
Qed.

(** The theorem above at six pairs: the pair of the least probability is
    the one left out. *)
Lemma X4_top_five_witness :
  SortContract Sort ∧ nanFree labels6 probabilities6
  ∧ getTopFiveLabels Sort labels6 probabilities6 = Ret ranked6
  ∧ ∃ rest, elems ranked6 ++ rest ≡ₚ pairs labels6 probabilities6
      ∧ ∀ x y, x ∈ elems ranked6 → y ∈ rest →
          f32_ge (Probability x) (Probability y) = true.
Proof.
  split; [exact Sort_contract|]. split; [exact nanFree_probabilities6|].
  split; [reflexivity|].
  apply (X4_top_five Sort labels6 probabilities6 ranked6 Sort_contract
           nanFree_probabilities6 eq_refl).
Defined.

Lemma pairs_take_labels labels probabilities :
  pairs (take (length probabilities) labels) probabilities = pairs labels probabilities.
Proof.
  unfold pairs. revert probabilities.
  induction labels as [|l labels IH]; intros [|p ps]; simpl; [done..|]. by rewrite IH.
Qed.

(** X5: the labels from index [len(probabilities)] on are never read: the
    ranker does the same on the labels cut to [len(probabilities)]. *)
Theorem X5_extra_labels_ignored sortSort labels probabilities :
  getTopFiveLabels sortSort labels probabilities
  = getTopFiveLabels sortSort (take (length probabilities) labels) probabilities.
Proof.
  unfold getTopFiveLabels, rankedPairs.
  by rewrite !pairLoop_foldl, !drop_0, pairs_take_labels.
Qed.

Lemma append_len_cap {A} (s s' : slice A) x x' :
  len s = len s' → cap s = cap s' →
  len (append s x) = len (append s' x') ∧ cap (append s x) = cap (append s' x').
Proof.
  unfold append, len. intros Hl Hc. rewrite Hl, Hc.
  case_bool_decide; cbn [elems cap]; rewrite !length_app; cbn [length]; by rewrite Hl.
Qed.

Lemma foldl_append_cap {A} (l : list A) : ∀ (l' : list A) (s s' : slice A),
  length l = length l' → len s = len s' → cap s = cap s' →
  cap (foldl append s l) = cap (foldl append s' l').
Proof.
  induction l as [|x l IH]; intros [|x' l'] s s' Hlen Hl Hc; simplify_eq/=; [done|].
  destruct (append_len_cap s s' x x' Hl Hc). by apply IH.
Qed.

(** X6: the ranking depends on the pairs, not on the order they come in:
    when no two probabilities tie, two inputs that form the same pairs in
    another order are ranked the same. *)
Theorem X6_order_of_input sortSort labels probabilities labels' probabilities' :
  SortContract sortSort →
  noTies probabilities →
  pairs labels' probabilities' ≡ₚ pairs labels probabilities →
  getTopFiveLabels sortSort labels' probabilities'
  = getTopFiveLabels sortSort labels probabilities.
Proof.
  intros Hc Hnt Hperm.
  destruct (rankedPairs_spec _ Hc labels probabilities)
    as (a1 & c1 & Hr1 & Hp1 & _ & Hs1 & (s1 & Hl1 & -> & _)).
  destruct (rankedPairs_spec _ Hc labels' probabilities')
    as (a2 & c2 & Hr2 & Hp2 & _ & Hs2 & (s2 & Hl2 & -> & _)).
  unfold getTopFiveLabels. rewrite Hr1, Hr2.
  pose proof (noTies_transitive labels _ Hnt) as Hto.
  assert (Hto' : TransitiveOrdering (pairs labels' probabilities')).
  { apply NegTransOn_TransitiveOrdering.
    eapply NegTransOn_perm; [symmetry; exact Hperm|].
    by apply TransitiveOrdering_NegTransOn. }
  rewrite (noTies_unique labels probabilities a2 a1 Hnt);
    [|by rewrite Hp2|done|by apply Hs2|by apply Hs1].
  rewrite pairLoop_foldl in Hl1, Hl2. injection Hl1 as <-. injection Hl2 as <-.
  rewrite !drop_0.
  rewrite (foldl_append_cap (pairs labels' probabilities') (pairs labels probabilities)
             nil_slice nil_slice); [done| |done..].
  by apply Permutation_length.
Qed.

(** The theorem above at the pairs of the example, reversed. *)
Lemma X6_order_of_input_witness :
  SortContract Sort ∧ noTies probabilities5
  ∧ pairs labels5r probabilities5r ≡ₚ pairs labels5 probabilities5
  ∧ getTopFiveLabels Sort labels5r probabilities5r
    = getTopFiveLabels Sort labels5 probabilities5.
Proof.
  assert (Hperm : pairs labels5r probabilities5r ≡ₚ pairs labels5 probabilities5).
  { change (pairs labels5r probabilities5r) with (reverse (pairs labels5 probabilities5)).
    apply reverse_Permutation. }
  split; [exact Sort_contract|]. split; [exact noTies_probabilities5|].
  split; [exact Hperm|].
  apply (X6_order_of_input Sort labels5 probabilities5 labels5r probabilities5r
           Sort_contract noTies_probabilities5 Hperm).
Defined.

(** * Further properties of the preprocessing graph *)

Section GraphMore.
Import tensorflow.

Lemma Scope_AddOperation_named rt s args st o st' :
  op.runBuild (op.Scope_AddOperation rt s args) st = (o, st') →
  op.err st' = None →
  op.graph st'
  = op.graph st ++ [mkOpSpec (Type_ args) (scopedName s args) (Input args) (Attrs args)].
Proof.
  unfold op.Scope_AddOperation, AddOperation, scopedName. cbn [op.runBuild].
  destruct (op.err st) eqn:Herr.
  { intros [= <- <-] Hnone. congruence. }
  cbn [Type_ Name Input Attrs].
  match goal with |- context [AddOperation_err rt ?g ?a] =>
    destruct (AddOperation_err rt g a) end.
  { by intros [= <- <-]. }
  by intros [= <- <-] _.
Qed.

Lemma wrapper_named rt s args st o st' :
  op.runBuild (op.wrapper rt s args) st = (o, st') →
  op.err st' = None →
  op.graph st'
  = op.graph st ++ [mkOpSpec (Type_ args) (scopedName s args) (Input args) (Attrs args)].
Proof.
  unfold op.wrapper. cbn [op.runBuild].
  destruct (op.err st) eqn:Herr.
  { intros [= <- <-] Hnone. congruence. }
  destruct (op.runBuild (op.Scope_AddOperation rt s args) st) as [o' st''] eqn:Hadd.
  intros [= <- <-] Hnone. by apply (Scope_AddOperation_named _ _ _ _ _ _ Hadd).
Qed.

Lemma Const_named rt s v st o st' :
  op.runBuild (op.Const rt s v) st = (o, st') →
  op.err st' = None →
  ∃ spec, op.graph st' = op.graph st ++ [spec] ∧ Type_ spec = "Const"
    ∧ Name spec = scopedName s (mkOpSpec "Const" "" [] ∅).
Proof.
  unfold op.Const, NewTensor. cbn [op.runBuild].
  destruct (op.err st) eqn:Herr.
  { intros [= <- <-] Hnone. congruence. }
  destruct (NewTensor_err rt v).
  { by intros [= <- <-]. }
  match goal with |- context [op.runBuild ?m st] =>
    destruct (op.runBuild m st) as [o' st''] eqn:Hadd end.
  intros [= <- <-] Hnone.
  rewrite (Scope_AddOperation_named _ _ _ _ _ _ Hadd Hnone). by eexists.
Qed.

Ltac name_step H :=
  rewrite runBuild_bind in H;
  match type of H with
  | context [op.runBuild ?m ?st] =>
      lazymatch m with
      | mbind _ _ => fail
      | _ => let o := fresh "o" in
             let st' := fresh "st" in
             let E := fresh "E" in
             destruct (op.runBuild m st) as [o st'] eqn:E
      end
  end.

(** X7: the operations of the preprocessing graph get the names
    Placeholder, DecodeJpeg, Cast, make_batch/Const, ExpandDims, size/Const,
    ResizeBilinear, mean/Const and Sub, in this order: the three constants
    sit in scopes of their own, and no two operations share a name. *)
Theorem X7_graph_names w g input output :
  getNormalizedGraph w = inr (g, input, output) →
  map Name g = normalizedNames ∧ NoDup (map Name g).
Proof.
  unfold getNormalizedGraph, op.NewScope.
  match goal with |- context [op.runBuild ?m ?st] =>
    destruct (op.runBuild m st) as [[input' output'] st9] eqn:H end.
  unfold op.Finalize. destruct (op.err st9) eqn:Herr; [done|].
  intros [= <- <- <-].
  do 9 name_step H.
  injection H as <- <- <-.
  pose proof (wrapper_ok _ _ _ _ _ _ E7 Herr) as [Herr6 _].
  pose proof (Const_ok _ _ _ _ _ _ E6 Herr6) as [Herr5 _].
  pose proof (wrapper_ok _ _ _ _ _ _ E5 Herr5) as [Herr4 _].
  pose proof (Const_ok _ _ _ _ _ _ E4 Herr4) as [Herr3 _].
  pose proof (wrapper_ok _ _ _ _ _ _ E3 Herr3) as [Herr2 _].
  pose proof (Const_ok _ _ _ _ _ _ E2 Herr2) as [Herr1 _].
  pose proof (wrapper_ok _ _ _ _ _ _ E1 Herr1) as [Herr0 _].
  pose proof (wrapper_ok _ _ _ _ _ _ E0 Herr0) as [Herr' _].
  apply wrapper_named in E7; [|done].
  apply Const_named in E6 as (c3 & E6 & _ & Hc3); [|done].
  apply wrapper_named in E5; [|done].
  apply Const_named in E4 as (c2 & E4 & _ & Hc2); [|done].
  apply wrapper_named in E3; [|done].
  apply Const_named in E2 as (c1 & E2 & _ & Hc1); [|done].
  apply wrapper_named in E1; [|done].
  apply wrapper_named in E0; [|done].
  apply wrapper_named in E; [|done].
  rewrite E7, E6, E5, E4, E3, E2, E1, E0, E. cbn [op.graph app].
  rewrite ?map_app. cbn [map app Name]. rewrite Hc1, Hc2, Hc3.
  assert (Hnames : ∀ l, l = normalizedNames → l = normalizedNames ∧ NoDup l).
  { intros l ->. split; [done|].
    apply (bool_decide_eq_true_1 (NoDup normalizedNames)). by vm_compute. }
  apply Hnames. reflexivity.
Qed.

(** The theorem above with a library that accepts everything. *)
Lemma X7_graph_names_witness :
  ∃ g input output,
    getNormalizedGraph exampleWorld = inr (g, input, output)
    ∧ map Name g = normalizedNames ∧ NoDup (map Name g).
Proof.
  destruct (getNormalizedGraph exampleWorld) as [e|[[g input] output]] eqn:Hg;
    [by vm_compute in Hg|].
  exists g, input, output. split; [done|].
  apply (X7_graph_names exampleWorld g input output Hg).
Defined.
End GraphMore.

Section GraphShape.
Import tensorflow.

Lemma operationAt_inputs g n type inputs attrs spec :
  operationAt g n type inputs attrs → g !! n = Some spec → Input spec = inputs.
Proof. intros (spec' & Hn & _ & Hin & _) Hspec. congruence. Qed.

(** X8: the preprocessing graph is well formed and has no idle operation:
    every input of an operation is the output of an operation added before
    it, and every operation but the last feeds an operation added after
    it. *)
Theorem X8_graph_well_formed w g input output :
  getNormalizedGraph w = inr (g, input, output) →
  wellFormed g
  ∧ ∀ m, S m < length g →
      ∃ n spec, m < n ∧ g !! n = Some spec ∧ outputOf m ∈ Input spec.
Proof.
  intros (Hlen & _ & H0 & H1 & H2 & H3 & H4 & H5 & H6 & H7 & H8 & _)%getNormalizedGraph_ok.
  split.
  - intros n spec o Hspec Ho.
    pose proof (lookup_lt_Some _ _ _ Hspec) as Hn. rewrite Hlen in Hn.
    do 9 (destruct n as [|n];
      [match goal with
       | Hop : operationAt g _ _ _ _ |- _ =>
           rewrite (operationAt_inputs _ _ _ _ _ _ Hop Hspec) in Ho
       | Hop : constantAt g _ _ |- _ =>
           rewrite (operationAt_inputs _ _ _ _ _ _ Hop Hspec) in Ho
       end;
       rewrite ?elem_of_cons, elem_of_nil in Ho;
       repeat (destruct Ho as [->|Ho]; [eexists; split; [|reflexivity]; lia|]);
       done|]).
    lia.
  - intros m Hm. rewrite Hlen in Hm.
    destruct H1 as (s1 & Hs1 & _ & Hi1 & _). destruct H2 as (s2 & Hs2 & _ & Hi2 & _).
    destruct H4 as (s4 & Hs4 & _ & Hi4 & _). destruct H6 as (s6 & Hs6 & _ & Hi6 & _).
    destruct H8 as (s8 & Hs8 & _ & Hi8 & _).
    destruct m as [|[|[|[|[|[|[|[|m]]]]]]]]; [..|lia].
    + exists 1, s1. rewrite Hi1. split; [lia|]. split; [done|]. apply elem_of_cons; by left.
    + exists 2, s2. rewrite Hi2. split; [lia|]. split; [done|]. apply elem_of_cons; by left.
    + exists 4, s4. rewrite Hi4. split; [lia|]. split; [done|]. apply elem_of_cons; by left.
    + exists 4, s4. rewrite Hi4. split; [lia|]. split; [done|].
      apply elem_of_cons; right. apply elem_of_cons; by left.
    + exists 6, s6. rewrite Hi6. split; [lia|]. split; [done|]. apply elem_of_cons; by left.
    + exists 6, s6. rewrite Hi6. split; [lia|]. split; [done|].
      apply elem_of_cons; right. apply elem_of_cons; by left.
    + exists 8, s8. rewrite Hi8. split; [lia|]. split; [done|]. apply elem_of_cons; by left.
    + exists 8, s8. rewrite Hi8. split; [lia|]. split; [done|].
      apply elem_of_cons; right. apply elem_of_cons; by left.
Qed.

(** The theorem above with a library that accepts everything. *)
Lemma X8_graph_well_formed_witness :
  ∃ g input output,
    getNormalizedGraph exampleWorld = inr (g, input, output) ∧ wellFormed g.
Proof.
  destruct (getNormalizedGraph exampleWorld) as [e|[[g input] output]] eqn:Hg;
    [by vm_compute in Hg|].
  exists g, input, output. split; [done|].
  apply (X8_graph_well_formed exampleWorld g input output Hg).
Defined.

End GraphShape.

(** * Further properties of the pipeline *)

Section PipelineMore.
Import tensorflow.

Lemma scanLoop_app texts : ∀ labels, scanLoop texts labels = labels ++ texts.
Proof.
  induction texts as [|text rest IH]; intros labels; simpl.
  - by rewrite (right_id_L [] (++)).
  - by rewrite IH, <-(assoc_L (++)).
Qed.

(** X9: [loadModel] returns no error exactly when the graph file is read,
    the graph imported, the labels file opened and scanned to its end
    without error; the graph is then there and the labels are the lines of
    the file, in the order of the file.  With an error of the scanner it
    returns that error next to the graph and the lines scanned before it.
    It panics exactly when the import of the graph does, and as it does. *)
Theorem X9_loadModel_labels w :
  (∀ g labels,
     loadModel w = Ret (g, labels, None) ↔
     ∃ model graph file,
       ioutil_ReadFile w graphFile = inr model
       ∧ tensorflow.Import (tf w) model = Ret (inr graph)
       ∧ g = Some graph
       ∧ os_Open w labelsFile = inr file
       ∧ scanErr file = None
       ∧ labels = lines file)
  ∧ (∀ model graph file e,
       ioutil_ReadFile w graphFile = inr model →
       tensorflow.Import (tf w) model = Ret (inr graph) →
       os_Open w labelsFile = inr file →
       scanErr file = Some e →
       loadModel w = Ret (Some graph, lines file, Some e))
  ∧ (∀ p, loadModel w = Panicked p ↔
       ∃ model, ioutil_ReadFile w graphFile = inr model
                ∧ tensorflow.Import (tf w) model = Panicked p).
Proof.
  split; [|split].
  - intros g labels. unfold loadModel. split.
    + destruct (ioutil_ReadFile w graphFile) as [|model] eqn:Hread; [done|].
      destruct (tensorflow.Import (tf w) model) as [[|graph]|] eqn:Himp; [done| |done].
      rewrite bind_Ret.
      destruct (os_Open w labelsFile) as [|file] eqn:Hopen; [done|].
      intros [= <- <- Hscan]. exists model, graph, file. by rewrite scanLoop_app.
    + intros (model & graph & file & -> & -> & -> & -> & Hscan & ->).
      rewrite bind_Ret, Hscan. by rewrite scanLoop_app.
  - intros model graph file e Hread Himp Hopen Hscan. unfold loadModel.
    rewrite Hread, Himp, bind_Ret, Hopen, Hscan. by rewrite scanLoop_app.
  - intros p. unfold loadModel. split.
    + destruct (ioutil_ReadFile w graphFile) as [|model] eqn:Hread; [done|].
      destruct (tensorflow.Import (tf w) model) as [[|graph]|p'] eqn:Himp.
      * done.
      * rewrite bind_Ret. by destruct (os_Open w labelsFile).
      * intros [= <-]. by exists model.
    + by intros (model & -> & ->).
Qed.

(** X10: how the body arrives does not matter to [normalizeImage], only
    its bytes: two bodies whose reads join to the same bytes get the same
    result, however the reads are cut and however they end. *)
Theorem X10_normalizeImage_bytes w body body' :
  foldr String.append "" (reads body) = foldr String.append "" (reads body') →
  normalizeImage w body = normalizeImage w body'.
Proof.
  intros Hbytes. rewrite !normalizeImage_unfold. unfold io_Copy. cbn [fst].
  by rewrite !copyReads_empty, Hbytes.
Qed.

(** The theorem above at a body read in two pieces and at once. *)
Lemma X10_normalizeImage_bytes_witness :
  foldr String.append "" (reads (mkReader ["JF"; "IF"] (Some (Err "reset"))))
  = foldr String.append "" (reads (mkReader ["JFIF"] None))
  ∧ normalizeImage exampleWorld (mkReader ["JF"; "IF"] (Some (Err "reset")))
    = normalizeImage exampleWorld (mkReader ["JFIF"] None).
Proof.
  split; [reflexivity|].
  by apply (X10_normalizeImage_bytes exampleWorld).
Defined.

Lemma Run_outputOf rt s n t m :
  Run rt s [(outputOf n, t)] [outputOf m]
  = Ret (Session_Run rt (session_graph s) [(outputOf n, t)] [outputOf m]).
Proof.
  unfold Run. rewrite bool_decide_true; [done|].
  repeat constructor; by eexists.
Qed.

(** X11: what [normalizeImage] runs.  When it returns a tensor, the
    preprocessing graph was built, a session made for it, and the tensor is
    the first the session returned with the bytes of the body, as a string
    tensor, bound to the placeholder and the output of the subtraction
    fetched.  It panics only on a run that succeeds with no tensor. *)
Theorem X11_normalizeImage_run w body :
  (∀ t, normalizeImage w body = Ret (inr t) →
     ∃ g session rest,
       getNormalizedGraph w = inr (g, outputOf 0, outputOf 8)
       ∧ NewSession (tf w) g = inr session
       ∧ Run (tf w) session
           [(outputOf 0, mkTensor (OfString (foldr String.append "" (reads body))))]
           [outputOf 8]
         = Ret (inr (t :: rest)))
  ∧ (∀ p, normalizeImage w body = Panicked p →
       p = IndexOutOfRange 0 0
       ∧ ∃ g session tensor,
           getNormalizedGraph w = inr (g, outputOf 0, outputOf 8)
           ∧ NewSession (tf w) g = inr session
           ∧ Run (tf w) session [(outputOf 0, tensor)] [outputOf 8] = Ret (inr [])).
Proof.
  rewrite normalizeImage_unfold. unfold io_Copy. cbn [fst]. rewrite copyReads_empty.
  unfold NewTensor.
  destruct (NewTensor_err (tf w) _); [by split|].
  destruct (getNormalizedGraph w) as [|[[g input] output]] eqn:Hg; [by split|].
  pose proof (getNormalizedGraph_ok _ _ _ _ Hg)
    as (_ & -> & _ & _ & _ & _ & _ & _ & _ & _ & _ & ->).
  destruct (NewSession (tf w) g) as [|session] eqn:Hs; [by split|].
  rewrite Run_outputOf, bind_Ret.
  destruct (Session_Run (tf w) _ _ _) as [|normalized] eqn:Hrun; [by split|].
  pose proof (Run_outputOf (tf w) session 0
                (mkTensor (OfString (foldr String.append "" (reads body)))) 8) as HR.
  rewrite Hrun in HR.
  destruct normalized as [|t0 rest]; cbn.
  - split; [done|]. intros p [= <-]. split; [done|].
    by exists g, session, (mkTensor (OfString (foldr String.append "" (reads body)))).
  - split; [|done]. intros t [= <-]. by exists g, session, rest.
Qed.

Lemma printLabels_run res : ∀ out,
  runProc (printLabels res) out = (out ++ map PrintLabel res, inr tt).
Proof.
  induction res as [|l rest IH]; intros out.
  - cbn. by rewrite (right_id_L [] (++)).
  - cbn [printLabels]. rewrite runProc_bind. cbn [printf runProc].
    by rewrite IH, <-(assoc_L (++)).
Qed.

Lemma slice_to_length `{Zero A} (s r : slice A) hi :
  slice_to s hi = Ret r → len r = hi.
Proof.
  unfold slice_to. case_bool_decide as Hhi; [|done]. intros [= <-].
  unfold len, backing. cbn [elems]. rewrite length_take, length_app, length_replicate.
  unfold len. lia.
Qed.

(** The part of [main] that follows the classification run. *)
Lemma main_rank sortSort labels (output : list Tensor) out :
  runProc
    (output0 ← lift (index output 0);
     match Value output0 with
     | OfFloat32ss m =>
         probabilities ← lift (index m 0);
         res ← lift (getTopFiveLabels sortSort labels probabilities);
         printLabels (elems res)
     | _ => lift (Panicked InterfaceConversion)
     end) out
  = match output with
    | [] => (out, inl (Panic (IndexOutOfRange 0 0)))
    | output0 :: _ =>
        match Value output0 with
        | OfFloat32ss [] => (out, inl (Panic (IndexOutOfRange 0 0)))
        | OfFloat32ss (probabilities :: _) =>
            match getTopFiveLabels sortSort labels probabilities with
            | Ret res => (out ++ map PrintLabel (elems res), inr tt)
            | Panicked p => (out, inl (Panic p))
            end
        | _ => (out, inl (Panic InterfaceConversion))
        end
    end.
Proof.
  rewrite runProc_bind. destruct output as [|output0 rest]; [done|].
  cbn [index lookup list_lookup lift runProc].
  destruct (Value output0) as [| | | |[|probabilities rows]|]; try done.
  rewrite runProc_bind. cbn [index lookup list_lookup lift runProc].
  rewrite runProc_bind.
  destruct (getTopFiveLabels sortSort labels probabilities) as [res|p]; [|done].
  cbn [lift runProc]. apply printLabels_run.
Qed.

(** X12: every run of [main] ends in one of three ways: without a URL
    argument it prints nothing and stops on the usage message; or it prints
    the line of the URL and stops, on a fatal error or a panic; or it prints
    the line of the URL and exactly five labels, and returns.  No label is
    printed by a run that stops. *)
Theorem X12_main_outcomes sortSort w :
  (length (Args w) < 2
   ∧ run sortSort w = ([], inl (Fatalf "usage: imgrecognition <image_url>" None)))
  ∨ (∃ url s, Args w !! 1 = Some url ∧ run sortSort w = ([PrintUrl url], inl s))
  ∨ (∃ url R, Args w !! 1 = Some url ∧ length R = 5
       ∧ run sortSort w = (PrintUrl url :: map PrintLabel R, inr tt)).
Proof.
  destruct (Args w !! 1) as [url|] eqn:Hurl.
  2: { left. apply lookup_ge_None in Hurl. split; [lia|].
       unfold run, main. by rewrite bool_decide_true by lia. }
  right. rewrite (main_start _ _ _ Hurl).
  destruct (http_Get w url) as [|response]; [left; by eexists _, _|].
  rewrite runProc_bind.
  destruct (loadModel w) as [[[modelGraph labels] [err|]]|]; cbn [lift runProc];
    [left; by eexists _, _| |left; by eexists _, _].
  rewrite runProc_bind.
  destruct (normalizeImage w (Body response)) as [[|tensor]|]; cbn [lift runProc];
    [left; by eexists _, _| |left; by eexists _, _].
  rewrite runProc_bind.
  destruct modelGraph as [modelGraph|]; cbn [deref lift runProc];
    [|left; by eexists _, _].
  destruct (NewSession (tf w) modelGraph) as [|session]; [left; by eexists _, _|].
  rewrite runProc_bind.
  destruct (Run (tf w) session _ _) as [[|output]|]; cbn [lift runProc];
    [left; by eexists _, _| |left; by eexists _, _].
  rewrite main_rank.
  destruct output as [|output0 rest]; [left; by eexists _, _|].
  destruct (Value output0) as [| | | |[|probabilities rows]|];
    try (left; by eexists _, _).
  destruct (getTopFiveLabels sortSort labels probabilities) as [res|p] eqn:Hres;
    [|left; by eexists _, _].
  right. exists url, (elems res). split; [done|]. split; [|done].
  unfold getTopFiveLabels in Hres.
  destruct (rankedPairs sortSort labels probabilities) as [s|]; [|done].
  apply (slice_to_length s res 5 Hres).
Qed.

(** What [main] does after a classification run that returns a matrix. *)
Lemma main_classified sortSort w url labels probabilities rows others :
  Args w !! 1 = Some url →
  classified w url labels (mkTensor (OfFloat32ss (probabilities :: rows)) :: others) →
  run sortSort w
  = match getTopFiveLabels sortSort labels probabilities with
    | Ret R => (PrintUrl url :: map PrintLabel (elems R), inr tt)
    | Panicked p => ([PrintUrl url], inl (Panic p))
    end.
Proof.
  intros Hurl (response & modelGraph & tensor & session & Hget & Hload & Hnorm & Hses & Hrun).
  rewrite (main_loaded _ _ _ _ _ _ Hurl Hget Hload), runProc_bind, Hnorm.
  cbn [lift runProc]. rewrite runProc_bind. cbn [deref lift runProc].
  rewrite Hses, runProc_bind, Hrun. cbn [lift runProc]. rewrite main_rank. cbn [Value].
  by destruct (getTopFiveLabels sortSort labels probabilities).
Qed.

(** X13: after a classification run that returns a matrix of float32 as
    its first tensor, [main] ends as the ranker ends on the labels of the
    labels file and row 0 of the matrix: it prints the ranker's labels in
    the ranker's order and returns, or stops on the ranker's panic with the
    line of the URL alone. *)
Theorem X13_main_ranks_row_0 sortSort w url labels probabilities rows others :
  Args w !! 1 = Some url →
  classified w url labels (mkTensor (OfFloat32ss (probabilities :: rows)) :: others) →
  run sortSort w
  = match getTopFiveLabels sortSort labels probabilities with
    | Ret R => (PrintUrl url :: map PrintLabel (elems R), inr tt)
    | Panicked p => ([PrintUrl url], inl (Panic p))
    end.
Proof. apply main_classified. Qed.

Lemma classified_rankingWorld labelLines output :
  classified (rankingWorld labelLines output) exampleUrl labelLines output.
Proof.
  exists (mkResponse (mkReader ["JF"; "IF"] None)), modelGraph2,
    (mkTensor (OfOther Float [1; 224; 224; 3]%Z)), (mkSession modelGraph2).
  split; [reflexivity|]. split.
  { unfold loadModel. cbn. by rewrite scanLoop_app. }
  split; [by vm_compute|]. split; [reflexivity|by vm_compute].
Defined.

(** The theorem above in a world whose classification run returns the five
    probabilities of the example. *)
Lemma X13_main_ranks_row_0_witness :
  Args (rankingWorld labels5 output5) !! 1 = Some exampleUrl
  ∧ classified (rankingWorld labels5 output5) exampleUrl labels5 output5
  ∧ run Sort (rankingWorld labels5 output5)
    = (PrintUrl exampleUrl :: map PrintLabel (elems ranked5), inr tt).
Proof.
  split; [reflexivity|]. split; [apply classified_rankingWorld|].
  exact (X13_main_ranks_row_0 Sort (rankingWorld labels5 output5) exampleUrl
           labels5 probabilities5 [] [] eq_refl (classified_rankingWorld labels5 output5)).
Defined.

(** X14: a labels file, or a row of probabilities, of fewer than five
    entries makes [main] panic after the whole inference: the run prints the
    line of the URL and stops on slice bounds out of range, with no fatal
    message. *)
Theorem X14_main_short_labels sortSort w url labels probabilities rows others :
  SortContract sortSort →
  Args w !! 1 = Some url →
  classified w url labels (mkTensor (OfFloat32ss (probabilities :: rows)) :: others) →
  length labels `min` length probabilities < 5 →
  ∃ c, c < 5
    ∧ run sortSort w = ([PrintUrl url], inl (Panic (SliceBoundsOutOfRange 5 c))).
Proof.
  intros Hc Hurl Hcl Hlt.
  rewrite (main_classified _ _ _ _ _ _ _ Hurl Hcl).
  destruct (getTopFiveLabels_spec _ Hc labels probabilities)
    as (a' & c & _ & _ & _ & H5 & ->).
  rewrite bool_decide_false by (unfold pairCount; lia).
  exists c. split; [unfold pairCount in H5; lia|done].
Qed.

(** The theorem above in a world whose labels file holds two lines. *)
Lemma X14_main_short_labels_witness :
  SortContract Sort
  ∧ Args (rankingWorld ["cat"; "dog"] output5) !! 1 = Some exampleUrl
  ∧ classified (rankingWorld ["cat"; "dog"] output5) exampleUrl ["cat"; "dog"] output5
  ∧ length ["cat"; "dog"] `min` length probabilities5 < 5
  ∧ ∃ c, c < 5
      ∧ run Sort (rankingWorld ["cat"; "dog"] output5)
        = ([PrintUrl exampleUrl], inl (Panic (SliceBoundsOutOfRange 5 c))).
Proof.
  assert (Hlt : length ["cat"; "dog"] `min` length probabilities5 < 5) by (cbn; lia).
  split; [exact Sort_contract|]. split; [reflexivity|].
  split; [apply classified_rankingWorld|]. split; [exact Hlt|].
  exact (X14_main_short_labels Sort (rankingWorld ["cat"; "dog"] output5) exampleUrl
           ["cat"; "dog"] probabilities5 [] [] Sort_contract eq_refl
           (classified_rankingWorld ["cat"; "dog"] output5) Hlt).
Defined.

(** X15: [main] trusts the shape of what the classification run returns.
    A run that succeeds with no tensor, or with a matrix of no rows, makes
    it panic on index 0; a first tensor that is no matrix of float32 makes
    it panic on the type assertion.  Each time the line of the URL is all
    the output. *)
Theorem X15_main_malformed_output sortSort w url labels output :
  Args w !! 1 = Some url →
  classified w url labels output →
  (output = [] →
     run sortSort w = ([PrintUrl url], inl (Panic (IndexOutOfRange 0 0))))
  ∧ (∀ t others, output = t :: others → Value t = OfFloat32ss [] →
       run sortSort w = ([PrintUrl url], inl (Panic (IndexOutOfRange 0 0))))
  ∧ (∀ t others, output = t :: others → (∀ m, Value t ≠ OfFloat32ss m) →
       run sortSort w = ([PrintUrl url], inl (Panic InterfaceConversion))).
Proof.
  intros Hurl (response & modelGraph & tensor & session & Hget & Hload & Hnorm & Hses & Hrun).
  rewrite (main_loaded _ _ _ _ _ _ Hurl Hget Hload), runProc_bind, Hnorm.
  cbn [lift runProc]. rewrite runProc_bind. cbn [deref lift runProc].
  rewrite Hses, runProc_bind, Hrun. cbn [lift runProc]. rewrite main_rank.
  split; [by intros ->|]. split.
  - intros t others -> Ht. by rewrite Ht.
  - intros t others -> Ht. destruct (Value t) as [| | | |m|]; try done. by destruct (Ht m).
Qed.

(** The theorem above in a world whose classification run returns no
    tensor. *)
Lemma X15_main_malformed_output_witness :
  Args (rankingWorld labels5 []) !! 1 = Some exampleUrl
  ∧ classified (rankingWorld labels5 []) exampleUrl labels5 []
  ∧ run Sort (rankingWorld labels5 [])
    = ([PrintUrl exampleUrl], inl (Panic (IndexOutOfRange 0 0))).
Proof.
  split; [reflexivity|]. split; [apply classified_rankingWorld|].
  by apply (X15_main_malformed_output Sort (rankingWorld labels5 []) exampleUrl labels5 []
              eq_refl (classified_rankingWorld labels5 [])).
Defined.
End PipelineMore.
